(** * Electric Vehicle Analytics Dashboard: the filter-and-aggregate pipeline

    A shallow embedding of the data pipeline of [app.py]: the sidebar
    filters that build [filtered_df], the value-count and group-by tables,
    the year-over-year growth rate, the average electric range and the
    "Key Insights" block, together with the properties the specification
    states about them.

    The script is written against pandas.  Each pandas operation the
    script calls is given here as a function on lists under the name the
    script uses ([between], [isin], [value_counts], [pct_change], ...).
    Floating-point results are kept as exact rationals extended with the
    two infinities and NaN, so that a division by zero shows up as the
    value numpy returns for it. *)

From Stdlib Require Import String.
From Stdlib Require Import List Bool Arith ZArith QArith Lia.
From Stdlib Require Import Permutation Sorted.
From Stdlib Require OrdersEx.
Import ListNotations.

Close Scope Q_scope.
Set Implicit Arguments.

(** ** Keys of pandas hash tables *)

(** [isin], [unique] and [value_counts] hash the values of a column; what
    they need from a value is a decidable equality. *)
Class Hashable (K : Type) := key_eqb : K -> K -> bool.

(** The equality test decides equality. *)
Class HashableOk (K : Type) `{Hashable K} :=
  key_eqb_spec : forall x y : K, reflect (x = y) (key_eqb x y).

Arguments HashableOk K {_}.

#[export] Instance Hashable_string : Hashable string := String.eqb.

#[export] Instance Hashable_Z : Hashable Z := Z.eqb.

(** A missing value (NaN, what [read_csv] makes of an empty field) is
    [None].  The object hash table treats two missing values as equal. *)
#[export] Instance Hashable_option {K} `{Hashable K} : Hashable (option K) :=
  fun a b =>
    match a, b with
    | Some x, Some y => key_eqb x y
    | None, None => true
    | _, _ => false
    end.

(** ** The data frame *)

(** One row of the registration table, with the columns the script reads. *)
Record Row := {
  Model_Year : option Z;
  State : option string;
  City : option string;
  Make : option string;
  Model : option string;
  Electric_Vehicle_Type : option string;
  CAFV_Eligibility : option string;
  Electric_Range : option Q;
  Base_MSRP : option Q
}.

Definition DataFrame := list Row.

(** The sidebar widgets: the year slider and the three multiselects. *)
Record Controls := {
  year_range : Z * Z;
  selected_states : list (option string);
  selected_makes : list (option string);
  selected_ev_types : list (option string)
}.

(** ** pandas primitives used by the filter *)

(** [Series.between(left, right)], inclusive on both sides; a missing value
    compares false. *)
Definition between (left right : Z) (x : option Z) : bool :=
  match x with
  | Some y => (left <=? y)%Z && (y <=? right)%Z
  | None => false
  end.

(** [Series.isin(values)] on one element. *)
Definition isin {K} `{Hashable K} (values : list K) (x : K) : bool :=
  existsb (key_eqb x) values.

(** Elementwise [&] of two boolean series over the same index. *)
Fixpoint mask_and (a b : list bool) : list bool :=
  match a, b with
  | x :: a', y :: b' => (x && y) :: mask_and a' b'
  | _, _ => []
  end.

(** [df[mask]]: the rows whose mask entry is True, in the order of [df]. *)
Fixpoint boolean_index (A : Type) (df : list A) (mask : list bool) : list A :=
  match df, mask with
  | r :: df', m :: mask' =>
      if m then r :: boolean_index df' mask' else boolean_index df' mask'
  | _, _ => []
  end.

(** ** Apply filters (app.py, lines 106-111) *)

Definition filtered_df (df : DataFrame) (w : Controls) : DataFrame :=
  boolean_index df
    (mask_and
       (mask_and
          (mask_and
             (map (between (fst (year_range w)) (snd (year_range w)))
                  (map Model_Year df))
             (map (isin (selected_states w)) (map State df)))
          (map (isin (selected_makes w)) (map Make df)))
       (map (isin (selected_ev_types w)) (map Electric_Vehicle_Type df))).

(** ** Floating-point values *)

(** A float64 as the script can observe it: not-a-number (which is also
    pandas' marker for a missing value), an infinity with its sign, or a
    finite value, kept as an exact rational.  Negative zero is left out:
    every divisor below is a count. *)
Inductive float64 :=
| NaN
| Inf (negative : bool)
| Fin (q : Q).

Definition is_zero (q : Q) : bool := Qeq_bool q 0%Q.
Definition is_neg (q : Q) : bool := negb (Qle_bool 0%Q q).

(** numpy's [/]: no exception, a zero divisor gives an infinity or NaN. *)
Definition truediv (a b : float64) : float64 :=
  match a, b with
  | NaN, _ | _, NaN => NaN
  | Fin x, Fin y =>
      if is_zero y then (if is_zero x then NaN else Inf (is_neg x))
      else Fin (x / y)%Q
  | Fin _, Inf _ => Fin 0%Q
  | Inf s, Fin y => Inf (xorb s (is_neg y))
  | Inf _, Inf _ => NaN
  end.

Definition sub (a b : float64) : float64 :=
  match a, b with
  | NaN, _ | _, NaN => NaN
  | Fin x, Fin y => Fin (x - y)%Q
  | Inf s, Fin _ => Inf s
  | Fin _, Inf s => Inf (negb s)
  | Inf s, Inf t => if Bool.eqb s t then NaN else Inf s
  end.

Definition mul (a b : float64) : float64 :=
  match a, b with
  | NaN, _ | _, NaN => NaN
  | Fin x, Fin y => Fin (x * y)%Q
  | Inf s, Fin y | Fin y, Inf s =>
      if is_zero y then NaN else Inf (xorb s (is_neg y))
  | Inf s, Inf t => Inf (xorb s t)
  end.

(** [pd.isna] on a scalar. *)
Definition isna (x : float64) : bool :=
  match x with NaN => true | _ => false end.

(** An integer count read as a float. *)
Definition of_count (n : nat) : float64 := Fin (inject_Z (Z.of_nat n)).

(** Equality of floats up to the representation of the rational. *)
Definition float_eq (a b : float64) : Prop :=
  match a, b with
  | NaN, NaN => True
  | Inf s, Inf t => s = t
  | Fin x, Fin y => (x == y)%Q
  | _, _ => False
  end.

(** ** Counting *)

(** Missing values are dropped before counting ([dropna=True], the
    default of [value_counts], [nunique], [groupby] and [mean]). *)
Fixpoint dropna (K : Type) (s : list (option K)) : list K :=
  match s with
  | [] => []
  | Some x :: s' => x :: dropna s'
  | None :: s' => dropna s'
  end.

(** One step of the hash-table count: a key already present has its count
    raised in place, a new key is appended. *)
Fixpoint bump {K} `{Hashable K} (k : K) (tbl : list (K * nat)) : list (K * nat) :=
  match tbl with
  | [] => [(k, 1)]
  | (k', n) :: t =>
      if key_eqb k k' then (k', S n) :: t else (k', n) :: bump k t
  end.

(** The hash-table count of a column: keys in order of first appearance. *)
Definition value_count {K} `{Hashable K} (values : list K) : list (K * nat) :=
  fold_left (fun tbl k => bump k tbl) values [].

(** [Series.unique()]: the distinct values in order of first appearance. *)
Fixpoint unique {K} `{Hashable K} (values : list K) : list K :=
  match values with
  | [] => []
  | x :: t => x :: filter (fun y => negb (key_eqb y x)) (unique t)
  end.

(** [Series.nunique()]. *)
Definition nunique {K} `{Hashable K} (s : list (option K)) : nat :=
  length (unique (dropna s)).

(** [Series.sort_values(ascending=False)] on a table of counts.  The script
    reaches it through [value_counts], which sorts with the default kind
    (quicksort); pandas documents only the kinds mergesort and stable as
    stable, so what happens to equal counts depends on the sorting routine
    underneath.  The sort is therefore an interface here; what every kind
    guarantees and what only a stable kind guarantees are stated apart. *)
Class SortValues :=
  sort_values : forall K : Type, list (K * nat) -> list (K * nat).

Definition count_ge (K : Type) (a b : K * nat) : Prop := snd b <= snd a.

(** What every sorting kind guarantees. *)
Class SortValuesOk `{SortValues} := {
  sort_values_perm :
    forall (K : Type) (s : list (K * nat)), Permutation s (sort_values s);
  sort_values_desc :
    forall (K : Type) (s : list (K * nat)),
      StronglySorted (@count_ge K) (sort_values s)
}.

(** What only the stable kinds guarantee: entries with one and the same
    count stay in the order they had. *)
Class SortValuesStable `{SortValues} :=
  sort_values_stable :
    forall (K : Type) (s : list (K * nat)) (c : nat),
      filter (fun p => snd p =? c) (sort_values s)
      = filter (fun p => snd p =? c) s.

(** A stable instance, by insertion. *)
Fixpoint insert_desc (K : Type) (p : K * nat) (s : list (K * nat)) : list (K * nat) :=
  match s with
  | [] => [p]
  | q :: t => if snd q <=? snd p then p :: s else q :: insert_desc p t
  end.

Fixpoint stable_sort_values (K : Type) (s : list (K * nat)) : list (K * nat) :=
  match s with
  | [] => []
  | p :: t => insert_desc p (stable_sort_values t)
  end.

#[export] Instance SortValues_stable : SortValues := stable_sort_values.

(** Another sort by descending count, which puts an entry after the ones
    of equal count: among equal counts the last one comes first. *)
Fixpoint insert_desc_late (K : Type) (p : K * nat) (s : list (K * nat)) : list (K * nat) :=
  match s with
  | [] => [p]
  | q :: t => if snd q <? snd p then p :: s else q :: insert_desc_late p t
  end.

Fixpoint late_sort_values (K : Type) (s : list (K * nat)) : list (K * nat) :=
  match s with
  | [] => []
  | p :: t => insert_desc_late p (late_sort_values t)
  end.

(** [Series.value_counts()]: the hash-table count of the values that are
    present, sorted by descending count. *)
Definition value_counts {K} `{Hashable K} `{SortValues}
  (s : list (option K)) : list (K * nat) :=
  sort_values (value_count (dropna s)).

(** [.head(n)]. *)
Definition head (A : Type) (n : nat) (s : list A) : list A := firstn n s.

(** The sum of the counts of a table. *)
Definition total (K : Type) (tbl : list (K * nat)) : nat :=
  fold_right (fun p acc => snd p + acc) 0 tbl.

(** One step of [groupby(key).size()]: the groups are kept sorted by key. *)
Fixpoint tally (k : Z) (tbl : list (Z * nat)) : list (Z * nat) :=
  match tbl with
  | [] => [(k, 1)]
  | (k', n) :: t =>
      if (k <? k')%Z then (k, 1) :: tbl
      else if (k =? k')%Z then (k', S n) :: t
      else (k', n) :: tally k t
  end.

(** [groupby(key).size().reset_index()]: one row per key that occurs, in
    ascending key order, with the number of rows of its group. *)
Definition groupby_size (keys : list (option Z)) : list (Z * nat) :=
  fold_left (fun tbl k => tally k tbl) (dropna keys) [].

(** [Series.shift(1)]. *)
Definition shift (s : list float64) : list float64 :=
  match s with
  | [] => []
  | _ :: _ => NaN :: removelast s
  end.

Fixpoint zip_with (A B C : Type) (f : A -> B -> C) (a : list A) (b : list B) : list C :=
  match a, b with
  | x :: a', y :: b' => f x y :: zip_with f a' b'
  | _, _ => []
  end.

(** [Series.pct_change()]: [data / data.shift(1) - 1]. *)
Definition pct_change (s : list float64) : list float64 :=
  zip_with (fun d p => sub (truediv d p) (Fin 1%Q)) s (shift s).

Fixpoint Qsum (v : list Q) : Q :=
  match v with
  | [] => 0%Q
  | x :: v' => (x + Qsum v')%Q
  end.

(** [Series.mean()]: missing values are skipped; no value left gives NaN. *)
Definition mean (s : list (option Q)) : float64 :=
  match dropna s with
  | [] => NaN
  | v => Fin (Qsum v / inject_Z (Z.of_nat (length v)))%Q
  end.

(** [series > 0] on one element; a missing value compares false. *)
Definition gt0 (x : option Q) : bool :=
  match x with
  | Some q => negb (Qle_bool q 0%Q)
  | None => false
  end.

(** ** The aggregates of the dashboard *)

(** Key metric and insight: the mean of the ranges that are [> 0]
    (app.py, lines 139 and 432). *)
Definition avg_range (filtered : DataFrame) : float64 :=
  mean (map Electric_Range
          (boolean_index filtered (map gt0 (map Electric_Range filtered)))).

(** What a metric shows: a fixed text, or a number passed to the format
    [.0f]. *)
Inductive label :=
| Text (s : string)
| Formatted (v : float64).

(** The "Avg Range (miles)" metric (app.py, line 142). *)
Definition avg_range_value (filtered : DataFrame) : label :=
  if negb (isna (avg_range filtered)) then Formatted (avg_range filtered)
  else Text "N/A"%string.

(** The "Average Range" insight box, written only when the mean is not
    NaN (app.py, lines 432-436). *)
Definition average_range_box (filtered : DataFrame) : option float64 :=
  if negb (isna (avg_range filtered)) then Some (avg_range filtered)
  else None.

(** Market share, tab 1 (app.py, lines 170, 181, 192). *)
Definition make_counts `{SortValues} (filtered : DataFrame) : list (string * nat) :=
  head 15 (value_counts (map Make filtered)).

Definition ev_type_counts `{SortValues} (filtered : DataFrame) : list (string * nat) :=
  value_counts (map Electric_Vehicle_Type filtered).

Definition top_10_makes `{SortValues} (filtered : DataFrame) : list (string * nat) :=
  head 10 (make_counts filtered).

(** Temporal trends, tab 2 (app.py, lines 204-205). *)
Definition yearly_counts (filtered : DataFrame) : list (Z * nat) :=
  groupby_size (map Model_Year filtered).

(** The [Growth_Rate] column (app.py, line 219), from the [Count] column
    of a yearly table. *)
Definition Growth_Rate (yearly : list (Z * nat)) : list float64 :=
  map (fun x => mul x (Fin 100%Q))
      (pct_change (map (fun row => of_count (snd row)) yearly)).

(** The growth chart is computed only for more than one year
    (app.py, line 218). *)
Definition growth_chart (yearly : list (Z * nat)) : option (list float64) :=
  if 1 <? length yearly then Some (Growth_Rate yearly) else None.

(** Geographic distribution, tab 3 (app.py, lines 247 and 265). *)
Definition state_counts `{SortValues} (filtered : DataFrame) : list (string * nat) :=
  value_counts (map State filtered).

Definition city_counts `{SortValues} (filtered : DataFrame) : list (string * nat) :=
  head 20 (value_counts (map City filtered)).

(** Rankings, tab 6 (app.py, line 395). *)
Definition cafv_counts `{SortValues} (filtered : DataFrame) : list (string * nat) :=
  value_counts (map CAFV_Eligibility filtered).

(** ** Exceptions *)

Inductive exn := IndexError.

Inductive result (A : Type) :=
| Ok (a : A)
| Raise (e : exn).

Arguments Ok {A} a.
Arguments Raise {A} e.

Definition bind (A B : Type) (m : result A) (k : A -> result B) : result B :=
  match m with
  | Ok a => k a
  | Raise e => Raise e
  end.

Notation "x <- m ;; k" := (bind m (fun x => k))
  (at level 61, m at next level, right associativity).

(** [series.index[0]] and [series.iloc[0]] of a table of counts: both
    raise on an empty table. *)
Definition index0 (K : Type) (s : list (K * nat)) : result K :=
  match s with
  | [] => Raise IndexError
  | (k, _) :: _ => Ok k
  end.

Definition iloc0 (K : Type) (s : list (K * nat)) : result nat :=
  match s with
  | [] => Raise IndexError
  | (_, n) :: _ => Ok n
  end.

(** [(count / len(filtered_df)) * 100]. *)
Definition percent (count len : nat) : float64 :=
  mul (truediv (of_count count) (of_count len)) (Fin 100%Q).

(** ** The page *)

Record KeyMetrics := {
  Total_Vehicles : nat;
  Unique_Makes : nat;
  Unique_Models : nat;
  Avg_Range : label;
  States_Covered : nat
}.

Record Charts := {
  chart_make_counts : list (string * nat);
  chart_ev_type_counts : list (string * nat);
  chart_yearly_counts : list (Z * nat);
  chart_growth : option (list float64);
  chart_state_counts : list (string * nat);
  chart_cafv_counts : list (string * nat)
}.

(** The "Key Insights" boxes. *)
Record KeyInsights := {
  Market_Leader : string * nat * float64;
  Average_Range : option float64;
  Vehicle_Preference : string * float64;
  Geographic_Leader : string * nat * float64
}.

Inductive Page :=
| Dashboard (m : KeyMetrics) (c : Charts) (i : KeyInsights)
| Warning (msg : string).

Definition key_metrics (filtered : DataFrame) : KeyMetrics :=
  {| Total_Vehicles := length filtered;
     Unique_Makes := nunique (map Make filtered);
     Unique_Models := nunique (map Model filtered);
     Avg_Range := avg_range_value filtered;
     States_Covered := nunique (map State filtered) |}.

Definition charts `{SortValues} (filtered : DataFrame) : Charts :=
  {| chart_make_counts := make_counts filtered;
     chart_ev_type_counts := ev_type_counts filtered;
     chart_yearly_counts := yearly_counts filtered;
     chart_growth := growth_chart (yearly_counts filtered);
     chart_state_counts := state_counts filtered;
     chart_cafv_counts := cafv_counts filtered |}.

(** Insights section (app.py, lines 425-449). *)
Definition key_insights `{SortValues} (filtered : DataFrame) : result KeyInsights :=
  top_make <- index0 (value_counts (map Make filtered)) ;;
  top_make_count <- iloc0 (value_counts (map Make filtered)) ;;
  most_common_type <- index0 (value_counts (map Electric_Vehicle_Type filtered)) ;;
  type_count <- iloc0 (value_counts (map Electric_Vehicle_Type filtered)) ;;
  top_state <- index0 (value_counts (map State filtered)) ;;
  state_count <- iloc0 (value_counts (map State filtered)) ;;
  Ok {| Market_Leader :=
          (top_make, top_make_count, percent top_make_count (length filtered));
        Average_Range := average_range_box filtered;
        Vehicle_Preference :=
          (most_common_type, percent type_count (length filtered));
        Geographic_Leader :=
          (top_state, state_count, percent state_count (length filtered)) |}.

Definition no_data_warning : string :=
  "No data matches the selected filters. Please adjust your filter criteria.".

(** Main dashboard (app.py, lines 114 and 452-453): everything is behind
    the test [len(filtered_df) > 0]; otherwise a warning is shown.  Of the
    guarded block the first branch holds the metrics, the tables behind the
    charts and the insights; the plotting calls of the tabs (lines 151-416)
    are not embedded, and they can raise on their own, so only the second
    branch is the outcome of the page as a whole. *)
Definition main_dashboard `{SortValues} (filtered : DataFrame) : result Page :=
  if 0 <? length filtered then
    i <- key_insights filtered ;;
    Ok (Dashboard (key_metrics filtered) (charts filtered) i)
  else
    Ok (Warning no_data_warning).

(** ** Reruns of the script *)

(** [st.cache_data] keeps the result of the first [load_data()]; every
    later run of the script gets that same table, whatever the file holds
    by then. *)
Record Session := { cached : option DataFrame }.

Definition load_data (file : DataFrame) (s : Session) : DataFrame * Session :=
  match cached s with
  | Some df => (df, s)
  | None => (file, {| cached := Some file |})
  end.

(** One run of the script up to the filter: load, then filter. *)
Definition run (w : Controls) (file : DataFrame) (s : Session) : DataFrame * Session :=
  let (df, s') := load_data file s in (filtered_df df w, s').

(** Successive runs; each one has the widget values and the file of its
    time. *)
Fixpoint reruns (inputs : list (Controls * DataFrame)) (s : Session) : list DataFrame * Session :=
  match inputs with
  | [] => ([], s)
  | (w, file) :: rest =>
      let (view, s') := run w file s in
      let (views, s'') := reruns rest s' in
      (view :: views, s'')
  end.

(** ** The sidebar (app.py, lines 74-103) *)

(** What can stop the script before the filter: [int(nan)] raises
    ValueError, the slider refuses a range whose ends coincide, and
    [sorted] raises TypeError when it has to compare a missing value (a
    float) with a string. *)
Inductive sidebar_error :=
| ValueError
| StreamlitInvalidMinMaxError
| TypeError.

Inductive attempt (A : Type) :=
| Done (a : A)
| Fails (e : sidebar_error).

Arguments Done {A} a.
Arguments Fails {A} e.

Definition attempt_bind (A B : Type) (m : attempt A) (k : A -> attempt B) : attempt B :=
  match m with
  | Done a => k a
  | Fails e => Fails e
  end.

Notation "x <~ m ;; k" := (attempt_bind m (fun x => k))
  (at level 61, m at next level, right associativity).

(** [Series.min()] and [Series.max()]: missing values are skipped; nothing
    left gives NaN, here [None]. *)
Definition series_min (s : list (option Z)) : option Z :=
  match dropna s with
  | [] => None
  | x :: t => Some (fold_left Z.min t x)
  end.

Definition series_max (s : list (option Z)) : option Z :=
  match dropna s with
  | [] => None
  | x :: t => Some (fold_left Z.max t x)
  end.

(** [int(x)] of a float that holds an integer or NaN. *)
Definition int (x : option Z) : attempt Z :=
  match x with
  | Some z => Done z
  | None => Fails ValueError
  end.

(** The order of Python strings, character by character. *)
Definition string_ltb (a b : string) : bool :=
  match OrdersEx.String_as_OT.compare a b with
  | Lt => true
  | _ => false
  end.

Fixpoint insort (x : string) (l : list string) : list string :=
  match l with
  | [] => [x]
  | y :: t => if string_ltb y x then y :: insort x t else x :: l
  end.

(** [sorted] on strings. *)
Fixpoint sorted_strings (l : list string) : list string :=
  match l with
  | [] => []
  | x :: t => insort x (sorted_strings t)
  end.

(** [sorted(series.unique())] on a column of strings: a missing value among
    strings cannot be compared with them; alone it is returned as it is. *)
Definition sorted_unique (column : list (option string)) : attempt (list (option string)) :=
  let values := unique column in
  if isin values None then
    match dropna values with
    | [] => Done values
    | _ :: _ => Fails TypeError
    end
  else Done (map Some (sorted_strings (dropna values))).

(** In sorted order [a] does not come after [b]; a missing value is not
    compared. *)
Definition cell_le (a b : option string) : Prop :=
  match a, b with
  | Some x, Some y => string_ltb y x = false
  | _, _ => True
  end.

(** [st.sidebar.slider(min_value, max_value, value)] on its first run: it
    returns [value], and raises unless [min_value] is below [max_value]
    (the script always passes a least and a greatest year, so the two can
    only coincide). *)
Definition slider (min_value max_value : Z) (value : Z * Z) : attempt (Z * Z) :=
  if (min_value <? max_value)%Z then Done value
  else Fails StreamlitInvalidMinMaxError.

(** The selections the widgets start with: the whole span of model years,
    the first five states in sorted order, the ten most frequent makes and
    every EV type. *)
Definition default_controls `{SortValues} (df : DataFrame) : attempt Controls :=
  min_year <~ int (series_min (map Model_Year df)) ;;
  max_year <~ int (series_max (map Model_Year df)) ;;
  year_range <~ slider min_year max_year (min_year, max_year) ;;
  states <~ sorted_unique (map State df) ;;
  _ <~ sorted_unique (map Make df) ;;
  Done {| year_range := year_range;
          selected_states := firstn 5 states;
          selected_makes :=
            map Some (map fst (head 10 (value_counts (map Make df))));
          selected_ev_types := unique (map Electric_Vehicle_Type df) |}.

(** ** More of the page *)

(** The delta under "Total Vehicles" (app.py, line 123): shown only when
    the filter removed something. *)
Definition total_vehicles_delta (df filtered : DataFrame) : option Z :=
  if length filtered =? length df then None
  else Some (Z.of_nat (length filtered) - Z.of_nat (length df))%Z.

(** The bars of the growth chart (app.py, lines 218-226): the yearly table
    with its growth column, without its first row. *)
Definition growth_bars (yearly : list (Z * nat)) : option (list (Z * float64)) :=
  if 1 <? length yearly
  then Some (tl (combine (map fst yearly) (Growth_Rate yearly)))
  else None.

(** Range tab (app.py, lines 279-317). *)
Definition range_data (filtered : DataFrame) : DataFrame :=
  boolean_index filtered (map gt0 (map Electric_Range filtered)).

Definition top_makes_range `{SortValues} (filtered : DataFrame) : list string :=
  map fst (head 10 (value_counts (map Make filtered))).

Definition range_by_make `{SortValues} (filtered : DataFrame) : DataFrame :=
  boolean_index (range_data filtered)
    (map (isin (map Some (top_makes_range filtered)))
         (map Make (range_data filtered))).

Inductive RangeTab :=
| RangeCharts (histogram_and_box : DataFrame) (violin : DataFrame)
| RangeWarning (msg : string).

Definition range_tab `{SortValues} (filtered : DataFrame) : RangeTab :=
  if 0 <? length (range_data filtered)
  then RangeCharts (range_data filtered) (range_by_make filtered)
  else RangeWarning "No range data available for the selected filters.".

(** Pricing tab, the data of its histogram and of its scatter plot
    (app.py, lines 325 and 353). *)
Definition price_data (filtered : DataFrame) : DataFrame :=
  boolean_index filtered (map gt0 (map Base_MSRP filtered)).

Definition price_range_data (filtered : DataFrame) : DataFrame :=
  boolean_index (price_data filtered)
    (map gt0 (map Electric_Range (price_data filtered))).

(** Quick stats of the sidebar (app.py, lines 546-550). *)
Definition year_span (filtered : DataFrame) : option Z :=
  match series_max (map Model_Year filtered), series_min (map Model_Year filtered) with
  | Some hi, Some lo => Some (hi - lo + 1)%Z
  | _, _ => None
  end.

Definition quick_stats (filtered : DataFrame) : option (nat * nat * option Z) :=
  if 0 <? length filtered
  then Some (length filtered, nunique (map Make filtered), year_span filtered)
  else None.

(** ** Group-by on two columns *)

(** Group keys are kept in sorted order; what the sort needs from a key is
    a comparison. *)
Class Ordered (K : Type) := key_ltb : K -> K -> bool.

(** The comparison is a strict total order. *)
Class OrderedOk (K : Type) `{Ordered K} := {
  key_ltb_irrefl : forall x : K, key_ltb x x = false;
  key_ltb_trans :
    forall x y z : K, key_ltb x y = true -> key_ltb y z = true -> key_ltb x z = true;
  key_ltb_total :
    forall x y : K, key_ltb x y = false -> key_ltb y x = false -> x = y
}.

Arguments OrderedOk K {_}.

#[export] Instance Ordered_Z : Ordered Z := Z.ltb.

#[export] Instance Ordered_string : Ordered string := string_ltb.

(** Tuples compare and hash component by component, the first one first. *)
#[export] Instance Hashable_prod {A B} `{Hashable A} `{Hashable B} : Hashable (A * B) :=
  fun p q => key_eqb (fst p) (fst q) && key_eqb (snd p) (snd q).

#[export] Instance Ordered_prod {A B} `{Hashable A} `{Ordered A} `{Ordered B} : Ordered (A * B) :=
  fun p q =>
    key_ltb (fst p) (fst q)
    || (key_eqb (fst p) (fst q) && key_ltb (snd p) (snd q)).

(** The keys of a table are in strictly ascending order. *)
Definition keys_ascending {K} `{Ordered K} (tbl : list (K * nat)) : Prop :=
  StronglySorted (fun a b => key_ltb a b = true) (map fst tbl).

(** One step of a group-by count over any ordered key. *)
Fixpoint tally_by {K} `{Hashable K} `{Ordered K} (k : K) (tbl : list (K * nat)) : list (K * nat) :=
  match tbl with
  | [] => [(k, 1)]
  | (k', n) :: t =>
      if key_ltb k k' then (k, 1) :: tbl
      else if key_eqb k k' then (k', S n) :: t
      else (k', n) :: tally_by k t
  end.

(** A row takes part in a group-by on two columns when both keys are
    present. *)
Fixpoint dropna2 (A B : Type) (keys : list (option A * option B)) : list (A * B) :=
  match keys with
  | [] => []
  | (Some a, Some b) :: t => (a, b) :: dropna2 t
  | _ :: t => dropna2 t
  end.

(** [groupby([a, b]).size()]. *)
Definition groupby2_size {A B} `{Hashable A} `{Hashable B} `{Ordered A} `{Ordered B}
  (keys : list (option A * option B)) : list ((A * B) * nat) :=
  fold_left (fun tbl k => tally_by k tbl) (dropna2 keys) [].

(** Top makes over time, tab 2 (app.py, lines 230-232). *)
Definition top_makes `{SortValues} (filtered : DataFrame) : list string :=
  map fst (head 5 (value_counts (map Make filtered))).

Definition yearly_make_data `{SortValues} (filtered : DataFrame) : list ((Z * string) * nat) :=
  groupby2_size
    (map (fun r => (Model_Year r, Make r))
       (boolean_index filtered
          (map (isin (map Some (top_makes filtered))) (map Make filtered)))).

(** Top models, tab 6 (app.py, lines 377-380): the counts per make and
    model, sorted by count, cut to fifteen, each with its label. *)
Definition model_counts `{SortValues} (filtered : DataFrame) : list ((string * string) * nat) :=
  head 15 (sort_values (groupby2_size (map (fun r => (Make r, Model r)) filtered))).

Record ModelBar := {
  bar_Make : string;
  bar_Model : string;
  bar_Count : nat;
  bar_Make_Model : string
}.

Definition model_df `{SortValues} (filtered : DataFrame) : list ModelBar :=
  map (fun entry =>
         {| bar_Make := fst (fst entry);
            bar_Model := snd (fst entry);
            bar_Count := snd entry;
            bar_Make_Model := (fst (fst entry) ++ " " ++ snd (fst entry))%string |})
      (model_counts filtered).

(** ** The specification's vocabulary *)

(** "A Record passes a FilterSpec": year within the closed range, state in
    the set, make in the set, EV type in the set. *)
Definition passes (w : Controls) (r : Row) : Prop :=
  (exists y, Model_Year r = Some y /\
             (fst (year_range w) <= y <= snd (year_range w))%Z) /\
  In (State r) (selected_states w) /\
  In (Make r) (selected_makes w) /\
  In (Electric_Vehicle_Type r) (selected_ev_types w).

(** Two states of the widgets stand for the same FilterSpec: the same year
    range and, as sets, the same states, makes and EV types, in whatever
    order and however often the lists name them. *)
Definition same_spec (w w' : Controls) : Prop :=
  year_range w = year_range w' /\
  (forall x, In x (selected_states w) <-> In x (selected_states w')) /\
  (forall x, In x (selected_makes w) <-> In x (selected_makes w')) /\
  (forall x, In x (selected_ev_types w) <-> In x (selected_ev_types w')).

(** The row test the filter mask computes for one row. *)
Definition keep (w : Controls) (r : Row) : bool :=
  between (fst (year_range w)) (snd (year_range w)) (Model_Year r)
  && isin (selected_states w) (State r)
  && isin (selected_makes w) (Make r)
  && isin (selected_ev_types w) (Electric_Vehicle_Type r).

(** How many times a value occurs in a column. *)
Definition occurrences {K} `{Hashable K} (k : K) (values : list K) : nat :=
  length (filter (key_eqb k) values).

(** The count a table holds for a key, 0 for a key it does not hold. *)
Fixpoint lookup {K} `{Hashable K} (k : K) (tbl : list (K * nat)) : nat :=
  match tbl with
  | [] => 0
  | (k', n) :: t => if key_eqb k k' then n else lookup k t
  end.

(** Every count of a table is at least one. *)
Definition positive (K : Type) (tbl : list (K * nat)) : Prop :=
  Forall (fun p => 1 <= snd p) tbl.

(** ** Sample data *)

(** A row given by the fields the scenarios below vary. *)
Definition registration (year : Z) (state make ev_type : string)
  (cafv : option string) (range : Q) : Row :=
  {| Model_Year := Some year;
     State := Some state;
     City := None;
     Make := Some make;
     Model := None;
     Electric_Vehicle_Type := Some ev_type;
     CAFV_Eligibility := cafv;
     Electric_Range := Some range;
     Base_MSRP := None |}.

(** The five registrations of the specification's end-to-end scenario. *)
Definition scenario : DataFrame :=
  [ registration 2022 "WA" "TESLA" "BEV" (Some "Eligible"%string) 250%Q;
    registration 2022 "WA" "TESLA" "BEV" (Some "Eligible"%string) 300%Q;
    registration 2021 "CA" "NISSAN" "BEV" (Some "Unknown"%string) 0%Q;
    registration 2023 "WA" "FORD" "PHEV" (Some "Eligible"%string) 30%Q;
    registration 2021 "CA" "TESLA" "BEV" (Some "Eligible"%string) 270%Q ].

Definition scenario_controls : Controls :=
  {| year_range := (2021, 2022)%Z;
     selected_states := [Some "WA"; Some "CA"]%string;
     selected_makes := [Some "TESLA"; Some "NISSAN"; Some "FORD"]%string;
     selected_ev_types := [Some "BEV"; Some "PHEV"]%string |}.

(** The same selection with Washington alone, and with the year slider
    ends exchanged. *)
Definition washington_only : Controls :=
  {| year_range := (2021, 2022)%Z;
     selected_states := [Some "WA"]%string;
     selected_makes := [Some "TESLA"; Some "NISSAN"; Some "FORD"]%string;
     selected_ev_types := [Some "BEV"; Some "PHEV"]%string |}.

(** The selection of the scenario with its lists in another order and a
    state named twice. *)
Definition scenario_controls_reordered : Controls :=
  {| year_range := (2021, 2022)%Z;
     selected_states := [Some "CA"; Some "WA"; Some "CA"]%string;
     selected_makes := [Some "FORD"; Some "NISSAN"; Some "TESLA"]%string;
     selected_ev_types := [Some "PHEV"; Some "BEV"]%string |}.

Definition inverted_years : Controls :=
  {| year_range := (2022, 2021)%Z;
     selected_states := [Some "WA"; Some "CA"]%string;
     selected_makes := [Some "TESLA"; Some "NISSAN"; Some "FORD"]%string;
     selected_ev_types := [Some "BEV"; Some "PHEV"]%string |}.

Definition no_states : Controls :=
  {| year_range := (2021, 2022)%Z;
     selected_states := [];
     selected_makes := [Some "TESLA"; Some "NISSAN"; Some "FORD"]%string;
     selected_ev_types := [Some "BEV"; Some "PHEV"]%string |}.

(** Registrations growing from one year to the next, the later ones read
    first. *)
Definition growing : DataFrame :=
  [ registration 2021 "WA" "TESLA" "BEV" (Some "Eligible"%string) 250%Q;
    registration 2021 "WA" "TESLA" "BEV" (Some "Eligible"%string) 300%Q;
    registration 2020 "CA" "NISSAN" "BEV" (Some "Unknown"%string) 84%Q ].

Definition growing_controls : Controls :=
  {| year_range := (2020, 2021)%Z;
     selected_states := [Some "WA"; Some "CA"]%string;
     selected_makes := [Some "TESLA"; Some "NISSAN"]%string;
     selected_ev_types := [Some "BEV"]%string |}.

(** Two registrations of different years, the second without a state. *)
Definition state_blank : DataFrame :=
  [ registration 2020 "WA" "TESLA" "BEV" None 250%Q;
    {| Model_Year := Some 2021%Z;
       State := None;
       City := None;
       Make := Some "NISSAN"%string;
       Model := None;
       Electric_Vehicle_Type := Some "BEV"%string;
       CAFV_Eligibility := None;
       Electric_Range := Some 84%Q;
       Base_MSRP := None |} ].

(** A file whose CAFV field is empty in its one row. *)
Definition cafv_blank : DataFrame :=
  [ registration 2021 "WA" "TESLA" "BEV" None 250%Q ].

(** Four registrations with the ranges 0, 100, 0, 200. *)
Definition ranges_with_sentinel : DataFrame :=
  [ registration 2021 "WA" "TESLA" "BEV" None 0%Q;
    registration 2021 "WA" "TESLA" "BEV" None 100%Q;
    registration 2021 "WA" "TESLA" "BEV" None 0%Q;
    registration 2021 "WA" "TESLA" "BEV" None 200%Q ].

(** Registrations with their models, all in Washington. *)
Definition model_row (year : Z) (make model : string) (range : Q) : Row :=
  {| Model_Year := Some year;
     State := Some "WA"%string;
     City := Some "Seattle"%string;
     Make := Some make;
     Model := Some model;
     Electric_Vehicle_Type := Some "BEV"%string;
     CAFV_Eligibility := None;
     Electric_Range := Some range;
     Base_MSRP := Some 0%Q |}.

Definition fleet : DataFrame :=
  [ model_row 2022 "TESLA" "MODEL 3" 250%Q;
    model_row 2022 "TESLA" "MODEL Y" 0%Q;
    model_row 2021 "NISSAN" "LEAF" 149%Q;
    model_row 2022 "TESLA" "MODEL 3" 272%Q ].

Definition fleet_controls : Controls :=
  {| year_range := (2021, 2022)%Z;
     selected_states := [Some "WA"]%string;
     selected_makes := [Some "TESLA"; Some "NISSAN"]%string;
     selected_ev_types := [Some "BEV"]%string |}.

(** * Properties *)

(** ** Hash-table keys *)

#[export] Instance HashableOk_string : HashableOk string.
Proof. exact String.eqb_spec. Qed.

#[export] Instance HashableOk_Z : HashableOk Z.
Proof. exact Z.eqb_spec. Qed.

#[export] Instance HashableOk_option {K} `{HashableOk K} : HashableOk (option K).
Proof.
  intros [x|] [y|]; unfold key_eqb; simpl; try (constructor; congruence).
  destruct (key_eqb_spec x y); constructor; congruence.
Qed.

Section Keys.
Context {K : Type} `{HashableOk K}.

Lemma key_eqb_refl (x : K) : key_eqb x x = true.
Proof. destruct (key_eqb_spec x x); congruence. Qed.

Lemma key_eqb_eq (x y : K) : key_eqb x y = true <-> x = y.
Proof. destruct (key_eqb_spec x y); split; congruence. Qed.

Lemma key_eqb_neq (x y : K) : key_eqb x y = false <-> x <> y.
Proof. destruct (key_eqb_spec x y); split; congruence. Qed.

Lemma isin_In (values : list K) (x : K) : isin values x = true <-> In x values.
Proof.
  unfold isin. rewrite existsb_exists. split.
  - intros (y & Hy & E). apply key_eqb_eq in E. now subst.
  - intros Hx. exists x. split; [assumption | apply key_eqb_refl].
Qed.

Lemma isin_nil (x : K) : isin [] x = false.
Proof. reflexivity. Qed.

End Keys.

(** ** The filter *)

Lemma between_spec (lo hi : Z) (x : option Z) :
  between lo hi x = true <-> exists y, x = Some y /\ (lo <= y <= hi)%Z.
Proof.
  destruct x as [y|]; simpl.
  - rewrite andb_true_iff, !Z.leb_le. split.
    + intros Hy. exists y. now split.
    + intros (z & [= <-] & Hz). exact Hz.
  - split; [discriminate | intros (y & Hy & _); discriminate].
Qed.

Lemma keep_passes (w : Controls) (r : Row) : keep w r = true <-> passes w r.
Proof.
  unfold keep, passes.
  rewrite !andb_true_iff, between_spec, !isin_In. tauto.
Qed.

(** The mask-and-index form of the script is a plain filter of the rows. *)
Lemma filtered_df_filter (df : DataFrame) (w : Controls) :
  filtered_df df w = filter (keep w) df.
Proof.
  unfold filtered_df.
  induction df as [|r df IH]; simpl; [reflexivity|].
  unfold keep at 1. simpl in IH.
  destruct (between _ _ (Model_Year r) && isin _ (State r)
            && isin _ (Make r) && isin _ (Electric_Vehicle_Type r));
    now rewrite IH.
Qed.

Lemma filter_all_false (A : Type) (f : A -> bool) (l : list A) :
  (forall x, In x l -> f x = false) -> filter f l = [].
Proof.
  induction l as [|x l IH]; simpl; intros Hf; [reflexivity|].
  rewrite (Hf x (or_introl eq_refl)). apply IH. intros y Hy. apply Hf. now right.
Qed.

Lemma filter_filter_imp (A : Type) (f g : A -> bool) (l : list A) :
  (forall x, In x l -> f x = true -> g x = true) ->
  filter f (filter g l) = filter f l.
Proof.
  induction l as [|x l IH]; simpl; intros Hfg; [reflexivity|].
  destruct (g x) eqn:Eg; simpl.
  - destruct (f x); rewrite IH; auto.
  - destruct (f x) eqn:Ef.
    + rewrite (Hfg x (or_introl eq_refl) Ef) in Eg. discriminate.
    + apply IH. auto.
Qed.

Lemma filtered_df_In (df : DataFrame) (w : Controls) (r : Row) :
  In r (filtered_df df w) <-> In r df /\ passes w r.
Proof. rewrite filtered_df_filter, filter_In, keep_passes. tauto. Qed.

(** C1.  The filtered view is exactly the rows of the data frame, in their
    original order, that pass the four tests together: model year within
    the closed range, state among the selected states, make among the
    selected makes, EV type among the selected types.  With any of the
    three selections empty no row passes. *)
Theorem filtered_df_exactly_passing (df : DataFrame) (w : Controls) :
  (exists test : Row -> bool,
      (forall r, test r = true <-> passes w r) /\
      filtered_df df w = filter test df) /\
  (forall r, In r (filtered_df df w) <-> In r df /\ passes w r) /\
  (selected_states w = [] \/ selected_makes w = [] \/ selected_ev_types w = []
   -> filtered_df df w = []).
Proof.
  split; [|split].
  - exists (keep w). split; [apply keep_passes | apply filtered_df_filter].
  - intros r. apply filtered_df_In.
  - intros Hempty. rewrite filtered_df_filter. apply filter_all_false.
    intros r _. unfold keep.
    destruct Hempty as [-> | [-> | ->]]; simpl;
      rewrite ?andb_false_r; reflexivity.
Qed.

(** C6.  A year range whose lower end is above its upper end selects
    nothing: the view is empty. *)
Theorem inverted_year_range_empty (df : DataFrame) (w : Controls) :
  (snd (year_range w) < fst (year_range w))%Z -> filtered_df df w = [].
Proof.
  intros Hinv. rewrite filtered_df_filter. apply filter_all_false.
  intros r _. unfold keep.
  destruct (between _ _ (Model_Year r)) eqn:E; [|reflexivity].
  apply between_spec in E. destruct E as (y & _ & Hy). lia.
Qed.

(** C8.  Widening the selections (same year range, each selection included
    in the wider one) removes no row: every row of the narrow view is in
    the wide view, and the narrow view is the narrow filter applied to the
    wide view. *)
Theorem widening_keeps_rows (df : DataFrame) (w w' : Controls) :
  year_range w = year_range w' ->
  incl (selected_states w) (selected_states w') ->
  incl (selected_makes w) (selected_makes w') ->
  incl (selected_ev_types w) (selected_ev_types w') ->
  (forall r, In r (filtered_df df w) -> In r (filtered_df df w')) /\
  filtered_df (filtered_df df w') w = filtered_df df w.
Proof.
  intros Hy Hs Hm Ht.
  assert (Himp : forall r, keep w r = true -> keep w' r = true).
  { intros r. rewrite !keep_passes. unfold passes. rewrite Hy.
    intros (Hyr & H1 & H2 & H3). auto 6. }
  split.
  - intros r. rewrite !filtered_df_filter, !filter_In. intuition.
  - rewrite !filtered_df_filter. apply filter_filter_imp. auto.
Qed.

(** ** Reruns *)

(** The view depends on the selections as sets only. *)
Lemma keep_same_spec (w w' : Controls) (r : Row) :
  same_spec w w' -> keep w r = keep w' r.
Proof.
  intros (Hy & Hs & Hm & Ht). unfold keep. rewrite Hy.
  assert (Hisin : forall (a b : list (option string)) (c : option string),
             (forall x, In x a <-> In x b) -> isin a c = isin b c).
  { intros a b c Hab.
    destruct (isin a c) eqn:Ea, (isin b c) eqn:Eb; try reflexivity.
    - apply isin_In, Hab, isin_In in Ea. congruence.
    - apply isin_In, Hab, isin_In in Eb. congruence. }
  now rewrite (Hisin _ _ (State r) Hs), (Hisin _ _ (Make r) Hm),
    (Hisin _ _ (Electric_Vehicle_Type r) Ht).
Qed.

Lemma filtered_df_same_spec (df : DataFrame) (w w' : Controls) :
  same_spec w w' -> filtered_df df w = filtered_df df w'.
Proof.
  intros Hsame. rewrite !filtered_df_filter. apply filter_ext.
  intros r. now apply keep_same_spec.
Qed.

(** C9.  The view is a function of the data frame and of the FilterSpec
    alone.  However often the script is rerun on the cached data frame,
    every run whose widgets stand for the same FilterSpec (the same year
    range and the same sets of states, makes and EV types, whatever the
    order and repetitions in the widget lists, and whatever the file holds
    by then) yields the same view, rows and order, and leaves the cached
    data frame as it was. *)
Theorem reruns_yield_identical_views (w : Controls) (df : DataFrame)
  (inputs : list (Controls * DataFrame)) :
  Forall (fun input => same_spec w (fst input)) inputs ->
  reruns inputs {| cached := Some df |}
  = (repeat (filtered_df df w) (length inputs), {| cached := Some df |}).
Proof.
  induction 1 as [|[w' file] rest Hsame _ IH]; simpl; [reflexivity|].
  rewrite IH. simpl in Hsame.
  now rewrite (filtered_df_same_spec df Hsame).
Qed.

(** Three runs on the cached scenario: with the scenario's selection, with
    the same selection in another order while the file is empty, and with
    the first selection again while the file holds other rows. *)
Lemma reruns_yield_identical_views_witness :
  reruns [ (scenario_controls, scenario);
           (scenario_controls_reordered, []);
           (scenario_controls, growing) ]
         {| cached := Some scenario |}
  = (repeat (filtered_df scenario scenario_controls) 3,
     {| cached := Some scenario |}).
Proof.
  apply (@reruns_yield_identical_views scenario_controls scenario
           [ (scenario_controls, scenario);
             (scenario_controls_reordered, []);
             (scenario_controls, growing) ]).
  repeat (apply Forall_cons || apply Forall_nil);
    unfold same_spec; simpl; repeat split; tauto.
Defined.

(** ** Counting by hash table *)

Lemma filter_filter_andb (A : Type) (f g : A -> bool) (l : list A) :
  filter f (filter g l) = filter (fun x => g x && f x) l.
Proof.
  induction l as [|x l IH]; simpl; [reflexivity|].
  destruct (g x); simpl; [destruct (f x)|]; now rewrite IH.
Qed.

Lemma dropna_In (K : Type) (s : list (option K)) (x : K) :
  In x (dropna s) <-> In (Some x) s.
Proof.
  induction s as [|[y|] s IH]; simpl.
  - tauto.
  - rewrite IH. split; intros [E|E]; auto; left; congruence.
  - rewrite IH. split; [auto | intros [E|E]; [discriminate | assumption]].
Qed.

Lemma dropna_length_le (K : Type) (s : list (option K)) :
  length (dropna s) <= length s.
Proof. induction s as [|[y|] s IH]; simpl; lia. Qed.

Lemma dropna_no_missing (K : Type) (s : list (option K)) :
  ~ In None s -> length (dropna s) = length s.
Proof.
  induction s as [|[y|] s IH]; simpl; intros Hn.
  - reflexivity.
  - rewrite IH; [reflexivity | tauto].
  - exfalso. apply Hn. now left.
Qed.

Lemma total_perm (K : Type) (a b : list (K * nat)) :
  Permutation a b -> total a = total b.
Proof.
  induction 1 as [| p a b _ IH | p q a | a b c _ IH1 _ IH2]; simpl; lia.
Qed.

Section Counting.
Context {K : Type} `{HashableOk K}.

Lemma occurrences_dropna (s : list (option K)) (x : K) :
  occurrences x (dropna s) = occurrences (Some x) s.
Proof.
  unfold occurrences.
  induction s as [|[y|] s IH]; simpl; [reflexivity | | exact IH].
  change (key_eqb (Some x) (Some y)) with (key_eqb x y).
  destruct (key_eqb x y); simpl; now rewrite IH.
Qed.

Lemma occurrences_pos (k : K) (l : list K) :
  occurrences k l <> 0 <-> In k l.
Proof.
  unfold occurrences. induction l as [|x l IH]; simpl; [tauto|].
  destruct (key_eqb_spec k x) as [->|Hne]; simpl.
  - split; [auto | discriminate].
  - rewrite IH. split; [auto | intros [E|E]; congruence].
Qed.

Lemma lookup_bump (k k' : K) (tbl : list (K * nat)) :
  lookup k (bump k' tbl)
  = if key_eqb k k' then S (lookup k tbl) else lookup k tbl.
Proof.
  induction tbl as [|[k0 n] t IH]; simpl; [reflexivity|].
  destruct (key_eqb_spec k' k0) as [->|Hne]; simpl.
  - destruct (key_eqb k k0); reflexivity.
  - rewrite IH.
    destruct (key_eqb_spec k k0) as [->|Hne']; [|reflexivity].
    destruct (key_eqb_spec k0 k'); congruence.
Qed.

Lemma keys_bump (k : K) (tbl : list (K * nat)) :
  map fst (bump k tbl)
  = if isin (map fst tbl) k then map fst tbl else map fst tbl ++ [k].
Proof.
  unfold isin.
  induction tbl as [|[k0 n] t IH]; simpl; [reflexivity|].
  destruct (key_eqb k k0); simpl; [reflexivity|].
  rewrite IH. now destruct (existsb (key_eqb k) (map fst t)).
Qed.

Lemma total_bump (k : K) (tbl : list (K * nat)) :
  total (bump k tbl) = S (total tbl).
Proof.
  induction tbl as [|[k0 n] t IH]; simpl; [reflexivity|].
  destruct (key_eqb k k0); simpl; [|rewrite IH]; lia.
Qed.

Lemma positive_bump (k : K) (tbl : list (K * nat)) :
  positive tbl -> positive (bump k tbl).
Proof.
  unfold positive.
  induction tbl as [|[k0 n] t IH]; simpl; intros Hp.
  - repeat constructor.
  - inversion Hp as [|? ? Hn Ht]; subst.
    destruct (key_eqb k k0); constructor; simpl in *; auto; lia.
Qed.

Lemma NoDup_keys_bump (k : K) (tbl : list (K * nat)) :
  NoDup (map fst tbl) -> NoDup (map fst (bump k tbl)).
Proof.
  intros Hnd. rewrite keys_bump.
  destruct (isin (map fst tbl) k) eqn:E; [assumption|].
  assert (Hk : ~ In k (map fst tbl)).
  { rewrite <- isin_In. congruence. }
  clear E. induction (map fst tbl) as [|x l IH]; simpl.
  - constructor; [tauto | constructor].
  - inversion Hnd; subst. constructor.
    + rewrite in_app_iff. simpl. intros [Hx | [Hx | []]]; [tauto|].
      apply Hk. now left.
    + apply IH; [assumption|]. intros Hin. apply Hk. now right.
Qed.

Lemma lookup_absent (k : K) (tbl : list (K * nat)) :
  ~ In k (map fst tbl) -> lookup k tbl = 0.
Proof.
  induction tbl as [|[k0 n] t IH]; simpl; intros Hk; [reflexivity|].
  destruct (key_eqb_spec k k0) as [->|Hne]; [tauto|]. apply IH. tauto.
Qed.

Lemma lookup_In (k : K) (n : nat) (tbl : list (K * nat)) :
  NoDup (map fst tbl) -> positive tbl ->
  (In (k, n) tbl <-> lookup k tbl = n /\ n <> 0).
Proof.
  unfold positive.
  induction tbl as [|[k0 m] t IH]; simpl; intros Hnd Hp.
  - split; [tauto | intros [<- Hn]; congruence].
  - inversion Hnd as [|? ? Hk0 Hnd']; subst.
    inversion Hp as [|? ? Hm Hp']; subst. simpl in Hm.
    destruct (key_eqb_spec k k0) as [->|Hne].
    + split.
      * intros [E|Hin].
        -- injection E as ->. split; [reflexivity | lia].
        -- exfalso. apply Hk0. apply (in_map fst) in Hin. exact Hin.
      * intros [-> _]. now left.
    + rewrite <- (IH Hnd' Hp'). split.
      * intros [E|Hin]; [congruence | assumption].
      * auto.
Qed.

(** The state of the count after a run of values, from any table. *)
Lemma fold_bump_lookup (k : K) (l : list K) (acc : list (K * nat)) :
  lookup k (fold_left (fun tbl x => bump x tbl) l acc)
  = lookup k acc + occurrences k l.
Proof.
  unfold occurrences. revert acc.
  induction l as [|x l IH]; intros acc; simpl; [lia|].
  rewrite IH, lookup_bump. destruct (key_eqb k x); simpl; lia.
Qed.

Lemma fold_bump_total (l : list K) (acc : list (K * nat)) :
  total (fold_left (fun tbl x => bump x tbl) l acc) = total acc + length l.
Proof.
  revert acc. induction l as [|x l IH]; intros acc; simpl; [lia|].
  rewrite IH, total_bump. lia.
Qed.

Lemma fold_bump_invariant (l : list K) (acc : list (K * nat)) :
  NoDup (map fst acc) -> positive acc ->
  NoDup (map fst (fold_left (fun tbl x => bump x tbl) l acc)) /\
  positive (fold_left (fun tbl x => bump x tbl) l acc).
Proof.
  revert acc. induction l as [|x l IH]; intros acc Hnd Hp; simpl; [auto|].
  apply IH; [now apply NoDup_keys_bump | now apply positive_bump].
Qed.

Lemma fold_bump_keys (l : list K) (acc : list (K * nat)) :
  map fst (fold_left (fun tbl x => bump x tbl) l acc)
  = map fst acc ++ filter (fun y => negb (isin (map fst acc) y)) (unique l).
Proof.
  revert acc. induction l as [|x l IH]; intros acc; simpl.
  - now rewrite app_nil_r.
  - rewrite IH, keys_bump.
    destruct (isin (map fst acc) x) eqn:E; simpl.
    + f_equal. rewrite filter_filter_andb. apply filter_ext_in.
      intros y _. destruct (key_eqb_spec y x) as [->|Hne]; simpl; [|reflexivity].
      now rewrite E.
    + rewrite <- app_assoc. simpl. do 2 f_equal.
      rewrite filter_filter_andb. apply filter_ext.
      intros y. unfold isin. rewrite existsb_app. simpl.
      rewrite orb_false_r, negb_orb. apply andb_comm.
Qed.

Lemma value_count_keys (l : list K) : map fst (value_count l) = unique l.
Proof.
  unfold value_count. rewrite fold_bump_keys. simpl.
  induction (unique l) as [|x u IH]; simpl; [reflexivity | now rewrite IH].
Qed.

Lemma value_count_lookup (k : K) (l : list K) :
  lookup k (value_count l) = occurrences k l.
Proof. unfold value_count. now rewrite fold_bump_lookup. Qed.

Lemma value_count_invariant (l : list K) :
  NoDup (map fst (value_count l)) /\ positive (value_count l).
Proof. apply fold_bump_invariant; constructor. Qed.

Lemma value_count_In (k : K) (n : nat) (l : list K) :
  In (k, n) (value_count l) <-> In k l /\ n = occurrences k l.
Proof.
  destruct (value_count_invariant l) as [Hnd Hp].
  rewrite (lookup_In k n Hnd Hp), value_count_lookup, <- occurrences_pos.
  split; intros [H1 H2]; subst; auto.
Qed.

Lemma value_count_total (l : list K) : total (value_count l) = length l.
Proof. unfold value_count. now rewrite fold_bump_total. Qed.

End Counting.

(** ** Group-by on the model year *)

Ltac cmpZ :=
  repeat match goal with
    | |- context [(?a <? ?b)%Z] => destruct (Z.ltb_spec a b)
    | |- context [(?a =? ?b)%Z] => destruct (Z.eqb_spec a b)
    end;
  simpl; try subst; try lia; try reflexivity.

Lemma tally_comm (a b : Z) (tbl : list (Z * nat)) :
  tally a (tally b tbl) = tally b (tally a tbl).
Proof.
  induction tbl as [|[k n] t IH]; simpl.
  - cmpZ.
  - cmpZ; simpl; cmpZ. now rewrite IH.
Qed.

Lemma total_tally (k : Z) (tbl : list (Z * nat)) :
  total (tally k tbl) = S (total tbl).
Proof.
  induction tbl as [|[k0 n] t IH]; simpl; [reflexivity|].
  cmpZ.
Qed.

Lemma positive_tally (k : Z) (tbl : list (Z * nat)) :
  positive tbl -> positive (tally k tbl).
Proof.
  unfold positive.
  induction tbl as [|[k0 n] t IH]; simpl; intros Hp.
  - repeat constructor.
  - inversion Hp as [|? ? Hn Ht]; subst. simpl in Hn.
    cmpZ; constructor; simpl; auto; lia.
Qed.

Lemma keys_tally_In (k x : Z) (tbl : list (Z * nat)) :
  In x (map fst (tally k tbl)) <-> x = k \/ In x (map fst tbl).
Proof.
  induction tbl as [|[k0 n] t IH]; simpl.
  - intuition.
  - cmpZ; simpl; rewrite ?IH; intuition.
Qed.

Lemma sorted_tally (k : Z) (tbl : list (Z * nat)) :
  StronglySorted Z.lt (map fst tbl) ->
  StronglySorted Z.lt (map fst (tally k tbl)).
Proof.
  induction tbl as [|[k0 n] t IH]; simpl; intros Hs.
  - repeat constructor.
  - inversion Hs as [|? ? Hs' Hall]; subst.
    destruct (Z.ltb_spec k k0); [|destruct (Z.eqb_spec k k0)]; simpl.
    + constructor; [exact Hs|]. constructor; [assumption|].
      eapply Forall_impl; [|exact Hall]. simpl. intros; lia.
    + exact Hs.
    + constructor; [now apply IH|].
      rewrite Forall_forall in *. intros x Hx.
      apply keys_tally_In in Hx. destruct Hx as [->|Hx]; [lia | auto].
Qed.

Lemma sorted_keys_absent (k k0 : Z) (t : list (Z * nat)) :
  Forall (Z.lt k0) (map fst t) -> (k <= k0)%Z -> lookup k t = 0.
Proof.
  intros Hall Hk. apply lookup_absent. intros Hin.
  rewrite Forall_forall in Hall. specialize (Hall k Hin). lia.
Qed.

Lemma key_eqb_Z (a b : Z) : key_eqb a b = (a =? b)%Z.
Proof. reflexivity. Qed.

Lemma lookup_tally (k k' : Z) (tbl : list (Z * nat)) :
  StronglySorted Z.lt (map fst tbl) ->
  lookup k (tally k' tbl)
  = if (k =? k')%Z then S (lookup k tbl) else lookup k tbl.
Proof.
  induction tbl as [|[k0 n] t IH]; simpl; intros Hs.
  - rewrite key_eqb_Z. now destruct (k =? k')%Z.
  - inversion Hs as [|? ? Hs' Hall]; subst.
    specialize (IH Hs').
    destruct (Z.ltb_spec k' k0); [|destruct (Z.eqb_spec k' k0)];
      simpl; rewrite ?key_eqb_Z.
    + destruct (Z.eqb_spec k k'); [|reflexivity]. subst k.
      rewrite (sorted_keys_absent (k := k') (k0 := k0) t Hall) by lia.
      rewrite key_eqb_Z. destruct (Z.eqb_spec k' k0); [lia | reflexivity].
    + subst k'. now destruct (k =? k0)%Z.
    + rewrite IH.
      destruct (Z.eqb_spec k k0); [|reflexivity].
      destruct (Z.eqb_spec k k'); [lia | reflexivity].
Qed.

Lemma fold_tally_invariant (l : list Z) (acc : list (Z * nat)) :
  StronglySorted Z.lt (map fst acc) -> positive acc ->
  StronglySorted Z.lt (map fst (fold_left (fun tbl k => tally k tbl) l acc)) /\
  positive (fold_left (fun tbl k => tally k tbl) l acc).
Proof.
  revert acc. induction l as [|x l IH]; intros acc Hs Hp; simpl; [auto|].
  apply IH; [now apply sorted_tally | now apply positive_tally].
Qed.

Lemma fold_tally_lookup (k : Z) (l : list Z) (acc : list (Z * nat)) :
  StronglySorted Z.lt (map fst acc) ->
  lookup k (fold_left (fun tbl x => tally x tbl) l acc)
  = lookup k acc + occurrences k l.
Proof.
  unfold occurrences. revert acc.
  induction l as [|x l IH]; intros acc Hs; simpl; [lia|].
  rewrite IH by now apply sorted_tally.
  rewrite lookup_tally by assumption.
  change (key_eqb k x) with (k =? x)%Z. destruct (k =? x)%Z; simpl; lia.
Qed.

Lemma fold_tally_total (l : list Z) (acc : list (Z * nat)) :
  total (fold_left (fun tbl x => tally x tbl) l acc) = total acc + length l.
Proof.
  revert acc. induction l as [|x l IH]; intros acc; simpl; [lia|].
  rewrite IH, total_tally. lia.
Qed.

Lemma fold_tally_perm (l l' : list Z) (acc : list (Z * nat)) :
  Permutation l l' ->
  fold_left (fun tbl x => tally x tbl) l acc
  = fold_left (fun tbl x => tally x tbl) l' acc.
Proof.
  intros Hp. revert acc.
  induction Hp as [| x l l' _ IH | x y l | l l' l'' _ IH1 _ IH2];
    intros acc; simpl.
  - reflexivity.
  - apply IH.
  - now rewrite tally_comm.
  - now rewrite IH1.
Qed.

Lemma dropna_perm (K : Type) (s s' : list (option K)) :
  Permutation s s' -> Permutation (dropna s) (dropna s').
Proof.
  induction 1 as [| [x|] s s' _ IH | [x|] [y|] s | s s' s'' _ IH1 _ IH2];
    simpl; auto; try reflexivity.
  - apply perm_swap.
  - now transitivity (dropna s').
Qed.

Lemma sorted_lt_NoDup (l : list Z) : StronglySorted Z.lt l -> NoDup l.
Proof.
  induction 1 as [|x l _ IH Hall]; constructor; [|assumption].
  intros Hin. rewrite Forall_forall in Hall. specialize (Hall x Hin). lia.
Qed.

Lemma groupby_size_invariant (keys : list (option Z)) :
  StronglySorted Z.lt (map fst (groupby_size keys)) /\
  positive (groupby_size keys).
Proof. apply fold_tally_invariant; constructor. Qed.

Lemma groupby_size_In (keys : list (option Z)) (y : Z) (c : nat) :
  In (y, c) (groupby_size keys)
  <-> In (Some y) keys /\ c = occurrences (Some y) keys.
Proof.
  destruct (groupby_size_invariant keys) as [Hs Hp].
  rewrite (lookup_In y c (sorted_lt_NoDup Hs) Hp).
  unfold groupby_size. rewrite fold_tally_lookup by constructor. simpl.
  rewrite <- dropna_In, <- occurrences_pos, occurrences_dropna.
  split; intros [H1 H2]; subst; auto.
Qed.

Lemma groupby_size_total (keys : list (option Z)) :
  total (groupby_size keys) = length (dropna keys).
Proof. unfold groupby_size. now rewrite fold_tally_total. Qed.

Lemma groupby_size_perm (keys keys' : list (option Z)) :
  Permutation keys keys' -> groupby_size keys = groupby_size keys'.
Proof.
  intros Hp. unfold groupby_size. apply fold_tally_perm. now apply dropna_perm.
Qed.

(** ** The stable sort meets the contract *)

Lemma insert_desc_perm (K : Type) (p : K * nat) (s : list (K * nat)) :
  Permutation (p :: s) (insert_desc p s).
Proof.
  induction s as [|q t IH]; simpl; [reflexivity|].
  destruct (snd q <=? snd p); [reflexivity|].
  rewrite perm_swap. now constructor.
Qed.

Lemma insert_desc_sorted (K : Type) (p : K * nat) (s : list (K * nat)) :
  StronglySorted (@count_ge K) s -> StronglySorted (@count_ge K) (insert_desc p s).
Proof.
  induction s as [|q t IH]; simpl; intros Hs.
  - repeat constructor.
  - inversion Hs as [|? ? Hs' Hall]; subst.
    destruct (Nat.leb_spec (snd q) (snd p)) as [Hle|Hlt].
    + constructor; [exact Hs|]. constructor; [exact Hle|].
      eapply Forall_impl; [|exact Hall]. unfold count_ge. intros; lia.
    + constructor; [now apply IH|].
      rewrite Forall_forall in *. intros x Hx.
      apply (Permutation_in _ (Permutation_sym (insert_desc_perm p t))) in Hx.
      destruct Hx as [<-|Hx]; [unfold count_ge; lia | auto].
Qed.

Lemma insert_desc_stable (K : Type) (p : K * nat) (s : list (K * nat)) (c : nat) :
  filter (fun e => snd e =? c) (insert_desc p s)
  = filter (fun e => snd e =? c) (p :: s).
Proof.
  induction s as [|q t IH]; simpl; [reflexivity|].
  destruct (Nat.leb_spec (snd q) (snd p)) as [Hle|Hlt]; [reflexivity|].
  simpl. rewrite IH. simpl.
  destruct (Nat.eqb_spec (snd q) c), (Nat.eqb_spec (snd p) c);
    try reflexivity; lia.
Qed.

#[export] Instance SortValuesOk_stable : @SortValuesOk SortValues_stable.
Proof.
  split; intros K s; unfold sort_values, SortValues_stable.
  - induction s as [|p t IH]; simpl; [constructor|].
    rewrite <- insert_desc_perm. now constructor.
  - induction s as [|p t IH]; simpl; [constructor|].
    now apply insert_desc_sorted.
Qed.

#[export] Instance SortValuesStable_stable : @SortValuesStable SortValues_stable.
Proof.
  intros K s c. unfold sort_values, SortValues_stable.
  induction s as [|p t IH]; simpl; [reflexivity|].
  rewrite insert_desc_stable. simpl. now rewrite IH.
Qed.

(** The late-inserting sort meets the contract as well. *)
Lemma insert_desc_late_perm (K : Type) (p : K * nat) (s : list (K * nat)) :
  Permutation (p :: s) (insert_desc_late p s).
Proof.
  induction s as [|q t IH]; simpl; [reflexivity|].
  destruct (snd q <? snd p); [reflexivity|].
  rewrite perm_swap. now constructor.
Qed.

Lemma insert_desc_late_sorted (K : Type) (p : K * nat) (s : list (K * nat)) :
  StronglySorted (@count_ge K) s ->
  StronglySorted (@count_ge K) (insert_desc_late p s).
Proof.
  induction s as [|q t IH]; simpl; intros Hs.
  - repeat constructor.
  - inversion Hs as [|? ? Hs' Hall]; subst.
    destruct (Nat.ltb_spec (snd q) (snd p)) as [Hlt|Hle].
    + constructor; [exact Hs|]. constructor; [unfold count_ge; lia|].
      eapply Forall_impl; [|exact Hall]. unfold count_ge. intros; lia.
    + constructor; [now apply IH|].
      rewrite Forall_forall in *. intros x Hx.
      apply (Permutation_in _ (Permutation_sym (insert_desc_late_perm p t))) in Hx.
      destruct Hx as [<-|Hx]; [exact Hle | auto].
Qed.

Lemma SortValuesOk_late : @SortValuesOk late_sort_values.
Proof.
  split; intros K s; unfold sort_values.
  - induction s as [|p t IH]; simpl; [constructor|].
    rewrite <- insert_desc_late_perm. now constructor.
  - induction s as [|p t IH]; simpl; [constructor|].
    now apply insert_desc_late_sorted.
Qed.

(** ** Value counts *)

Lemma sorted_app_ge (A : Type) (R : A -> A -> Prop) (l1 l2 : list A) :
  StronglySorted R (l1 ++ l2) ->
  forall a b, In a l1 -> In b l2 -> R a b.
Proof.
  induction l1 as [|x l1 IH]; simpl; intros Hs a b Ha Hb; [tauto|].
  inversion Hs as [|? ? Hs' Hall]; subst.
  destruct Ha as [<-|Ha].
  - rewrite Forall_forall in Hall. apply Hall. apply in_or_app. now right.
  - now apply IH.
Qed.

Lemma keys_filter_by_count (K : Type) (g : K -> nat) (c : nat) (tbl : list (K * nat)) :
  (forall p, In p tbl -> snd p = g (fst p)) ->
  map fst (filter (fun p => snd p =? c) tbl)
  = filter (fun k => g k =? c) (map fst tbl).
Proof.
  induction tbl as [|p t IH]; simpl; intros Hg; [reflexivity|].
  rewrite (Hg p (or_introl eq_refl)).
  destruct (g (fst p) =? c); simpl; rewrite IH; auto.
Qed.

Section ValueCounts.
Context {K : Type} `{HashableOk K}.
Context {sorter : SortValues} {sorter_ok : SortValuesOk}.

Lemma value_counts_perm (s : list (option K)) :
  Permutation (value_count (dropna s)) (value_counts s).
Proof. apply sort_values_perm. Qed.

Lemma value_counts_In (s : list (option K)) (k : K) (c : nat) :
  In (k, c) (value_counts s)
  <-> In (Some k) s /\ c = occurrences (Some k) s.
Proof.
  rewrite <- dropna_In, <- occurrences_dropna, <- value_count_In.
  split; apply Permutation_in;
    [apply Permutation_sym|]; apply value_counts_perm.
Qed.

Lemma value_counts_NoDup (s : list (option K)) :
  NoDup (map fst (value_counts s)).
Proof.
  eapply Permutation_NoDup.
  - apply Permutation_map. apply value_counts_perm.
  - apply value_count_invariant.
Qed.

Lemma value_counts_desc (s : list (option K)) :
  StronglySorted (@count_ge K) (value_counts s).
Proof. apply sort_values_desc. Qed.

Lemma value_counts_total (s : list (option K)) :
  total (value_counts s) = length (dropna s).
Proof.
  rewrite <- (total_perm (value_counts_perm s)). apply value_count_total.
Qed.

Lemma value_counts_nil : value_counts (@nil (option K)) = [].
Proof.
  apply Permutation_nil. apply (value_counts_perm []).
Qed.

Lemma value_counts_head (s : list (option K)) (n : nat) :
  exists rest,
    value_counts s = head n (value_counts s) ++ rest /\
    length (head n (value_counts s)) = Nat.min n (length (value_counts s)) /\
    forall a b, In a (head n (value_counts s)) -> In b rest -> snd b <= snd a.
Proof.
  exists (skipn n (value_counts s)). unfold head.
  split; [now rewrite firstn_skipn|]. split; [apply length_firstn|].
  intros a b Ha Hb.
  apply (sorted_app_ge (R := @count_ge K) (firstn n (value_counts s))
           (skipn n (value_counts s))); auto.
  rewrite firstn_skipn. apply value_counts_desc.
Qed.

Lemma value_counts_ties (s : list (option K)) (c : nat) :
  @SortValuesStable sorter ->
  map fst (filter (fun p => snd p =? c) (value_counts s))
  = filter (fun k => occurrences (Some k) s =? c) (unique (dropna s)).
Proof.
  intros Hstable. unfold value_counts. rewrite (Hstable K).
  rewrite (keys_filter_by_count (fun k => occurrences (Some k) s)).
  - now rewrite value_count_keys.
  - intros [k n] Hin. simpl. apply value_count_In in Hin.
    destruct Hin as [_ ->]. apply occurrences_dropna.
Qed.

End ValueCounts.

(** C5 (as amended).  For a column counted with [value_counts] (make,
    state, EV type, CAFV eligibility): the table has one entry per distinct
    value present in the column, holding the number of its occurrences; the
    entries are in descending order of count; [head n] keeps the first [n]
    entries, none of which has a smaller count than an entry left out; and
    when the sort is a stable one, entries with equal counts come in order
    of first appearance.  The model-year table is built by group-by
    instead: one entry per year present, with its number of rows, in
    ascending order of year. *)
Theorem value_counts_ranking {K : Type} `{HashableOk K}
  {sorter : SortValues} {sorter_ok : SortValuesOk}
  (s : list (option K)) (n : nat) :
  NoDup (map fst (value_counts s)) /\
  (forall k c, In (k, c) (value_counts s)
               <-> In (Some k) s /\ c = occurrences (Some k) s) /\
  StronglySorted (@count_ge K) (value_counts s) /\
  (exists rest,
      value_counts s = head n (value_counts s) ++ rest /\
      length (head n (value_counts s)) = Nat.min n (length (value_counts s)) /\
      forall a b, In a (head n (value_counts s)) -> In b rest -> snd b <= snd a) /\
  (@SortValuesStable sorter ->
   forall c, map fst (filter (fun p => snd p =? c) (value_counts s))
             = filter (fun k => occurrences (Some k) s =? c) (unique (dropna s))) /\
  (forall filtered : DataFrame,
      StronglySorted Z.lt (map fst (yearly_counts filtered)) /\
      forall y c, In (y, c) (yearly_counts filtered)
                  <-> In (Some y) (map Model_Year filtered)
                      /\ c = occurrences (Some y) (map Model_Year filtered)).
Proof.
  split; [apply value_counts_NoDup|].
  split; [intros k c; apply value_counts_In|].
  split; [apply value_counts_desc|].
  split; [apply value_counts_head|].
  split; [intros Hstable c; now apply value_counts_ties|].
  intros filtered. split; [apply groupby_size_invariant|].
  intros y c. apply groupby_size_In.
Qed.

(** The make column of the scenario's view, counted with the stable sort
    and cut to the top two. *)
Lemma value_counts_ranking_witness :
  NoDup (map fst (value_counts (map Make (filtered_df scenario scenario_controls)))) /\
  (forall k c,
      In (k, c) (value_counts (map Make (filtered_df scenario scenario_controls)))
      <-> In (Some k) (map Make (filtered_df scenario scenario_controls))
          /\ c = occurrences (Some k) (map Make (filtered_df scenario scenario_controls))) /\
  StronglySorted (@count_ge string)
    (value_counts (map Make (filtered_df scenario scenario_controls))).
Proof.
  pose proof (@value_counts_ranking string _ _ SortValues_stable
                SortValuesOk_stable
                (map Make (filtered_df scenario scenario_controls)) 2)
    as (Hnd & Hin & Hdesc & _).
  exact (conj Hnd (conj Hin Hdesc)).
Defined.

(** The contract of the sort alone does not fix the order among equal
    counts: on the state column of the scenario's view, where WA and CA
    have two registrations each, the two sorts above give the two orders. *)
Lemma tie_order_follows_the_sort :
  @value_counts string _ stable_sort_values
    (map State (filtered_df scenario scenario_controls))
  = [("WA", 2); ("CA", 2)]%string /\
  @value_counts string _ late_sort_values
    (map State (filtered_df scenario scenario_controls))
  = [("CA", 2); ("WA", 2)]%string.
Proof. split; reflexivity. Qed.

(** The model-year table of a view is not in descending order of count:
    2020 with one registration precedes 2021 with two. *)
Lemma yearly_counts_not_by_count :
  yearly_counts (filtered_df growing growing_controls) = [(2020%Z, 1); (2021%Z, 2)] /\
  ~ StronglySorted (@count_ge Z)
      (yearly_counts (filtered_df growing growing_controls)).
Proof.
  split; [reflexivity|].
  intros Hs. vm_compute in Hs.
  inversion Hs as [|? ? _ Hall]; subst.
  inversion Hall as [|? ? Hge _]; subst.
  unfold count_ge in Hge. simpl in Hge. lia.
Qed.

(** A column that is present in every passing row has no missing value in
    the view. *)
Lemma filtered_column_present (df : DataFrame) (w : Controls)
  (A : Type) (f : Row -> option A) :
  (forall r, passes w r -> f r <> None) ->
  length (dropna (map f (filtered_df df w))) = length (filtered_df df w).
Proof.
  intros Hf. rewrite dropna_no_missing; [apply length_map|].
  rewrite in_map_iff. intros (r & Hr & Hin).
  apply filtered_df_In in Hin. now apply (Hf r).
Qed.

(** C7 (as amended).  The counts of a value-count table add up to the
    number of rows whose value in the column is present; missing values are
    not counted.  On a filtered view the sum is the number of rows for the
    state, make and EV-type columns whenever no missing value is among the
    selected ones, and for the model-year table always. *)
Theorem count_conservation {sorter : SortValues} {sorter_ok : SortValuesOk}
  (df : DataFrame) (w : Controls) :
  (forall s : list (option string),
      total (value_counts s) = length (dropna s) /\
      (~ In None s -> total (value_counts s) = length s)) /\
  (~ In None (selected_states w) ->
   total (state_counts (filtered_df df w)) = length (filtered_df df w)) /\
  (~ In None (selected_makes w) ->
   total (value_counts (map Make (filtered_df df w))) = length (filtered_df df w)) /\
  (~ In None (selected_ev_types w) ->
   total (ev_type_counts (filtered_df df w)) = length (filtered_df df w)) /\
  total (yearly_counts (filtered_df df w)) = length (filtered_df df w).
Proof.
  pose proof (@filtered_column_present df w) as Hcol.
  split; [|split; [|split; [|split]]].
  - intros s. split; [apply value_counts_total|].
    intros Hs. now rewrite value_counts_total, dropna_no_missing.
  - intros Hsel. unfold state_counts. rewrite value_counts_total.
    apply Hcol. intros r (_ & Hr & _) E. now rewrite E in Hr.
  - intros Hsel. rewrite value_counts_total.
    apply Hcol. intros r (_ & _ & Hr & _) E. now rewrite E in Hr.
  - intros Hsel. unfold ev_type_counts. rewrite value_counts_total.
    apply Hcol. intros r (_ & _ & _ & Hr) E. now rewrite E in Hr.
  - unfold yearly_counts. rewrite groupby_size_total.
    apply Hcol. intros r ((y & Hy & _) & _) E. congruence.
Qed.

Lemma count_conservation_witness :
  total (state_counts (filtered_df scenario scenario_controls)) = 4 /\
  length (filtered_df scenario scenario_controls) = 4.
Proof.
  destruct (@count_conservation SortValues_stable SortValuesOk_stable
              scenario scenario_controls) as (_ & Hstate & _).
  split; [|reflexivity].
  rewrite Hstate; [reflexivity|].
  simpl. intros [E | [E | []]]; discriminate.
Defined.

(** A row whose CAFV field is empty is in the view but in no count. *)
Lemma cafv_counts_drop_missing :
  length (filtered_df cafv_blank scenario_controls) = 1 /\
  total (cafv_counts (filtered_df cafv_blank scenario_controls)) = 0 /\
  total (cafv_counts (filtered_df cafv_blank scenario_controls))
  <> length (filtered_df cafv_blank scenario_controls).
Proof. repeat split. vm_compute. discriminate. Qed.

(** C10.  The yearly table is in strictly ascending order of year, and it
    does not depend on the order of the rows of the view. *)
Theorem yearly_counts_ascending (filtered : DataFrame) :
  StronglySorted Z.lt (map fst (yearly_counts filtered)) /\
  (forall reordered : DataFrame,
      Permutation filtered reordered ->
      yearly_counts reordered = yearly_counts filtered).
Proof.
  split; [apply groupby_size_invariant|].
  intros reordered Hp. unfold yearly_counts. symmetry.
  apply groupby_size_perm. now apply Permutation_map.
Qed.

(** ** Growth rate *)

Lemma nth_error_zip_with (A B C : Type) (f : A -> B -> C)
  (a : list A) (b : list B) (i : nat) :
  nth_error (zip_with f a b) i
  = match nth_error a i, nth_error b i with
    | Some x, Some y => Some (f x y)
    | _, _ => None
    end.
Proof.
  revert b i. induction a as [|x a IH]; intros [|y b] [|i]; simpl;
    try reflexivity.
  - now destruct (nth_error a i).
  - apply IH.
Qed.

Lemma nth_error_removelast (A : Type) (s : list A) (i : nat) :
  S i < length s -> nth_error (removelast s) i = nth_error s i.
Proof.
  revert i. induction s as [|x s IH]; intros i Hi; simpl in *; [lia|].
  destruct s as [|y s]; [simpl in Hi; lia|].
  destruct i as [|i]; [reflexivity|]. simpl. apply IH. simpl in *. lia.
Qed.

Lemma nth_error_shift (s : list float64) (i : nat) :
  S i < length s -> nth_error (shift s) (S i) = nth_error s i.
Proof.
  destruct s as [|x s]; simpl; [lia|]. intros Hi.
  now apply (nth_error_removelast (x :: s)).
Qed.

Lemma is_zero_count (n : nat) : is_zero (inject_Z (Z.of_nat n)) = false <-> n <> 0.
Proof.
  unfold is_zero. destruct (Qeq_bool (inject_Z (Z.of_nat n)) 0) eqn:E.
  - apply Qeq_bool_iff in E. unfold Qeq in E. simpl in E.
    split; [discriminate | lia].
  - split; [|reflexivity]. intros _ ->. discriminate.
Qed.

(** C2 (as amended).  In the growth column of a yearly table, the first
    year has no value (NaN, the marker of a missing value); every later
    year whose preceding count is not zero has the value
    (count - previous) / previous * 100; and a table built by the group-by
    of the script holds no zero count. *)
Theorem growth_rate_values (yearly : list (Z * nat)) :
  length (Growth_Rate yearly) = length yearly /\
  (yearly <> [] -> nth_error (Growth_Rate yearly) 0 = Some NaN) /\
  (forall i y0 c0 y1 c1,
      nth_error yearly i = Some (y0, c0) ->
      nth_error yearly (S i) = Some (y1, c1) ->
      c0 <> 0 ->
      exists g,
        nth_error (Growth_Rate yearly) (S i) = Some (Fin g) /\
        (g == (inject_Z (Z.of_nat c1) - inject_Z (Z.of_nat c0))
              / inject_Z (Z.of_nat c0) * 100)%Q) /\
  (forall filtered : DataFrame,
      Forall (fun row => snd row <> 0) (yearly_counts filtered)).
Proof.
  split; [|split; [|split]].
  - unfold Growth_Rate, pct_change. rewrite length_map.
    induction yearly as [|[y c] t IH]; [reflexivity|].
    simpl. f_equal.
    clear IH. revert y c.
    induction t as [|[y' c'] t IH]; intros y c; [reflexivity|].
    simpl in *. f_equal. apply (IH y' c').
  - destruct yearly as [|[y c] t]; [congruence|]. reflexivity.
  - intros i y0 c0 y1 c1 H0 H1 Hc.
    assert (Hlen : S i < length yearly).
    { apply nth_error_Some. congruence. }
    unfold Growth_Rate, pct_change.
    rewrite nth_error_map, nth_error_zip_with.
    rewrite nth_error_shift by now rewrite length_map.
    rewrite !nth_error_map, H0, H1. simpl.
    apply is_zero_count in Hc. rewrite Hc.
    eexists. split; [reflexivity|].
    apply is_zero_count in Hc.
    field. intros E. unfold Qeq in E. simpl in E. lia.
  - intros filtered.
    destruct (groupby_size_invariant (map Model_Year filtered)) as [_ Hp].
    eapply Forall_impl; [|exact Hp]. simpl. intros; lia.
Qed.

(** The specification's example: counts 5, 10, 0 for 2020 to 2022. *)
Lemma growth_rate_values_witness :
  exists g,
    nth_error (Growth_Rate [(2020%Z, 5); (2021%Z, 10); (2022%Z, 0)]) 1
    = Some (Fin g) /\ (g == 100)%Q.
Proof.
  destruct (growth_rate_values [(2020%Z, 5); (2021%Z, 10); (2022%Z, 0)])
    as (_ & _ & Hrate & _).
  destruct (Hrate 0 2020%Z 5 2021%Z 10 eq_refl eq_refl) as (g & Hg & Eg).
  - discriminate.
  - exists g. split; [exact Hg|]. rewrite Eg. reflexivity.
Defined.

(** A zero count followed by five: the growth column holds plus infinity
    for the second year, which is not a missing value. *)
Lemma growth_rate_zero_previous :
  Growth_Rate [(2020%Z, 0); (2021%Z, 5)] = [NaN; Inf false] /\
  growth_chart [(2020%Z, 0); (2021%Z, 5)] = Some [NaN; Inf false] /\
  isna (Inf false) = false.
Proof. repeat split. Qed.

(** ** Average range *)

Lemma gt0_nonneg (q : Q) : (0 <= q)%Q -> gt0 (Some q) = negb (Qeq_bool q 0).
Proof.
  intros Hq. simpl. f_equal.
  destruct (Qle_bool q 0) eqn:Ele, (Qeq_bool q 0) eqn:Eeq; try reflexivity.
  - apply Qle_bool_iff in Ele.
    assert (E : (q == 0)%Q) by now apply Qle_antisym.
    apply Qeq_bool_iff in E. congruence.
  - apply Qeq_bool_iff in Eeq.
    assert (Hle : (q <= 0)%Q) by (rewrite Eeq; apply Qle_refl).
    apply Qle_bool_iff in Hle. congruence.
Qed.

Lemma ranges_above_zero (filtered : DataFrame) :
  (forall r q, In r filtered -> Electric_Range r = Some q -> (0 <= q)%Q) ->
  dropna (map Electric_Range
            (boolean_index filtered (map gt0 (map Electric_Range filtered))))
  = filter (fun q => negb (Qeq_bool q 0)) (dropna (map Electric_Range filtered)).
Proof.
  induction filtered as [|r t IH]; simpl; intros Hq; [reflexivity|].
  assert (IH' := IH (fun r' q Hin => Hq r' q (or_intror Hin))).
  destruct (Electric_Range r) as [q|] eqn:E; [|exact IH'].
  rewrite (gt0_nonneg (Hq r q (or_introl eq_refl) E)). simpl.
  destruct (negb (Qeq_bool q 0)); simpl; rewrite ?E; simpl; now rewrite IH'.
Qed.

(** C3.  With ranges that are not negative, the average range is the mean
    of the ranges that are present and different from 0; when none is left
    the mean is NaN, the metric reads "N/A" and the insight box is not
    written. *)
Theorem avg_range_excludes_sentinel (filtered : DataFrame) :
  (forall r q, In r filtered -> Electric_Range r = Some q -> (0 <= q)%Q) ->
  let valid :=
    filter (fun q => negb (Qeq_bool q 0)) (dropna (map Electric_Range filtered)) in
  (valid <> [] ->
   avg_range filtered = Fin (Qsum valid / inject_Z (Z.of_nat (length valid)))%Q /\
   avg_range_value filtered = Formatted (avg_range filtered) /\
   average_range_box filtered = Some (avg_range filtered)) /\
  (valid = [] ->
   avg_range filtered = NaN /\
   avg_range_value filtered = Text "N/A"%string /\
   average_range_box filtered = None).
Proof.
  intros Hq valid.
  unfold avg_range_value, average_range_box, avg_range, mean.
  rewrite (ranges_above_zero filtered Hq). fold valid.
  split; intros Hv.
  - destruct valid as [|q v]; [congruence|]. auto.
  - rewrite Hv. auto.
Qed.

(** The specification's example: ranges 0, 100, 0, 200 average to 150. *)
Lemma avg_range_excludes_sentinel_witness :
  float_eq (avg_range ranges_with_sentinel) (Fin 150%Q) /\
  avg_range_value ranges_with_sentinel = Formatted (avg_range ranges_with_sentinel).
Proof.
  assert (Hq : forall r q, In r ranges_with_sentinel ->
                           Electric_Range r = Some q -> (0 <= q)%Q).
  { simpl. intros r q [<- | [<- | [<- | [<- | []]]]] [= <-]; discriminate. }
  destruct (avg_range_excludes_sentinel ranges_with_sentinel Hq) as [Hvalid _].
  destruct Hvalid as (Havg & Hval & _); [discriminate|].
  split; [|exact Hval].
  rewrite Havg. reflexivity.
Defined.

(** ** The empty view *)

Lemma head_nil (A : Type) (n : nat) : head n (@nil A) = [].
Proof. now destruct n. Qed.

(** C4.  When no row passes the filter, the page is the warning alone: no
    metric, chart or insight is computed, so nothing raises and no NaN is
    shown.  The count tables of the empty view are empty, no growth column
    is built, and the range metric would read "N/A".  An empty selection
    of states is one way to get there. *)
Theorem empty_view_shows_warning {sorter : SortValues} {sorter_ok : SortValuesOk}
  (df : DataFrame) (w : Controls) :
  filtered_df df w = [] ->
  main_dashboard (filtered_df df w) = Ok (Warning no_data_warning) /\
  make_counts (filtered_df df w) = [] /\
  ev_type_counts (filtered_df df w) = [] /\
  state_counts (filtered_df df w) = [] /\
  city_counts (filtered_df df w) = [] /\
  cafv_counts (filtered_df df w) = [] /\
  yearly_counts (filtered_df df w) = [] /\
  growth_chart (yearly_counts (filtered_df df w)) = None /\
  avg_range_value (filtered_df df w) = Text "N/A"%string /\
  average_range_box (filtered_df df w) = None.
Proof.
  intros ->.
  unfold make_counts, ev_type_counts, state_counts, city_counts, cafv_counts.
  cbn [map]. rewrite !(value_counts_nil (K := string)), !head_nil.
  repeat split.
Qed.

Lemma empty_view_shows_warning_witness :
  filtered_df scenario no_states = [] /\
  main_dashboard (filtered_df scenario no_states) = Ok (Warning no_data_warning).
Proof.
  split; [reflexivity|].
  apply (@empty_view_shows_warning SortValues_stable SortValuesOk_stable
           scenario no_states).
  reflexivity.
Defined.

(** ** Instances of the filter theorems on the scenario *)

Lemma inverted_year_range_empty_witness :
  filtered_df scenario inverted_years = [].
Proof.
  apply (inverted_year_range_empty scenario inverted_years). reflexivity.
Defined.

Lemma widening_keeps_rows_witness :
  (forall r, In r (filtered_df scenario washington_only) ->
             In r (filtered_df scenario scenario_controls)) /\
  filtered_df (filtered_df scenario scenario_controls) washington_only
  = filtered_df scenario washington_only.
Proof.
  apply (widening_keeps_rows scenario washington_only scenario_controls).
  - reflexivity.
  - simpl. intros x [<- | []]. simpl. now left.
  - apply incl_refl.
  - apply incl_refl.
Defined.

(** ** The specification's scenarios, evaluated *)

(** The end-to-end scenario: four of the five registrations pass (the 2023
    FORD does not); TESLA has three and NISSAN one; the average range over
    250, 300 and 270 is 820/3; the market leader is TESLA with 75%. *)
Example scenario_view :
  length (filtered_df scenario scenario_controls) = 4 /\
  map Make (filtered_df scenario scenario_controls)
  = [Some "TESLA"; Some "TESLA"; Some "NISSAN"; Some "TESLA"]%string.
Proof. split; reflexivity. Qed.

Example scenario_make_counts :
  make_counts (filtered_df scenario scenario_controls)
  = [("TESLA", 3); ("NISSAN", 1)]%string.
Proof. reflexivity. Qed.

Example scenario_avg_range :
  float_eq (avg_range (filtered_df scenario scenario_controls)) (Fin (820 # 3)).
Proof. reflexivity. Qed.

Example scenario_market_leader :
  exists insights pct,
    key_insights (filtered_df scenario scenario_controls) = Ok insights /\
    Market_Leader insights = ("TESLA"%string, 3, pct) /\
    float_eq pct (Fin 75%Q).
Proof.
  eexists. eexists. split; [reflexivity|]. split; reflexivity.
Qed.

(** Growth rates of the counts 5, 10, 0: none for the first year, then
    100 and -100. *)
Example growth_rate_example :
  Forall2 float_eq
    (Growth_Rate [(2020%Z, 5); (2021%Z, 10); (2022%Z, 0)])
    [NaN; Fin 100%Q; Fin (-100)%Q].
Proof. repeat constructor. Qed.

(** A view of a single year has no growth column. *)
Example growth_chart_single_year :
  growth_chart (yearly_counts cafv_blank) = None.
Proof. reflexivity. Qed.

(** * Further properties of the script *)

(** ** Counts and metrics *)

Section Insights.
Context {sorter : SortValues} {sorter_ok : SortValuesOk}.

Lemma value_counts_length (K : Type) `{HashableOk K} (s : list (option K)) :
  length (value_counts s) = nunique s.
Proof.
  unfold nunique.
  rewrite <- (Permutation_length (value_counts_perm s)).
  rewrite <- value_count_keys. symmetry. apply length_map.
Qed.

(** ** The insights name the most frequent values *)

Lemma sorted_head_max (K : Type) (p : K * nat) (t : list (K * nat)) :
  StronglySorted (@count_ge K) (p :: t) ->
  forall q, In q (p :: t) -> snd q <= snd p.
Proof.
  intros Hs q [<- | Hq]; [lia|].
  inversion Hs as [|? ? _ Hall]; subst.
  rewrite Forall_forall in Hall. apply (Hall q Hq).
Qed.

Lemma occurrences_le_present (K : Type) `{HashableOk K}
  (s : list (option K)) (k : K) :
  occurrences (Some k) s <= length (dropna s).
Proof.
  rewrite <- occurrences_dropna. unfold occurrences. apply filter_length_le.
Qed.

(** The first entry of a value-count table: a value of the column, with
    its number of occurrences, which no other value exceeds. *)
Lemma first_entry_most_frequent (K : Type) `{HashableOk K}
  (s : list (option K)) (k : K) (n : nat) :
  index0 (value_counts s) = Ok k -> iloc0 (value_counts s) = Ok n ->
  In (Some k) s /\ n = occurrences (Some k) s /\
  (forall k', occurrences (Some k') s <= n) /\
  1 <= n <= length s.
Proof.
  intros Hk Hn.
  pose proof (value_counts_desc s) as Hs.
  pose proof (value_counts_In s) as Hin.
  destruct (value_counts s) as [|[k0 n0] t] eqn:E; simpl in *; [discriminate|].
  injection Hk as ->. injection Hn as ->.
  destruct (proj1 (Hin k n) (or_introl eq_refl)) as [Hks Hocc].
  split; [exact Hks|]. split; [exact Hocc|]. split.
  - intros k'.
    destruct (Nat.eq_dec (occurrences (Some k') s) 0) as [E0|Hpos]; [lia|].
    assert (Hk' : In (Some k') s) by (apply occurrences_pos; exact Hpos).
    assert (Hin' : In (k', occurrences (Some k') s) ((k, n) :: t)).
    { apply Hin. now split. }
    apply (sorted_head_max Hs) in Hin'. exact Hin'.
  - split.
    + assert (Hp : occurrences (Some k) s <> 0) by now apply occurrences_pos.
      lia.
    + rewrite Hocc.
      pose proof (occurrences_le_present s k).
      pose proof (dropna_length_le s). lia.
Qed.

Lemma percent_share (c n : nat) :
  1 <= c <= n ->
  exists q, percent c n = Fin q /\
            (q == inject_Z (Z.of_nat c) / inject_Z (Z.of_nat n) * 100)%Q /\
            (0 < q)%Q /\ (q <= 100)%Q.
Proof.
  intros [Hc Hn]. unfold percent, of_count. simpl.
  assert (Hz : is_zero (inject_Z (Z.of_nat n)) = false)
    by (apply is_zero_count; lia).
  rewrite Hz. eexists. split; [reflexivity|]. split; [reflexivity|].
  assert (Hnpos : (0 < inject_Z (Z.of_nat n))%Q).
  { unfold Qlt. simpl. lia. }
  assert (Hcpos : (0 < inject_Z (Z.of_nat c))%Q).
  { unfold Qlt. simpl. lia. }
  split.
  - apply Qmult_lt_0_compat; [|reflexivity].
    apply Qlt_shift_div_l; [exact Hnpos|]. now rewrite Qmult_0_l.
  - setoid_replace 100%Q with (1 * 100)%Q at 2 by reflexivity.
    apply Qmult_le_compat_r; [|discriminate].
    apply Qle_shift_div_r; [exact Hnpos|].
    rewrite Qmult_1_l. rewrite <- Zle_Qle. lia.
Qed.

(** X3.  When the insights are written, the market leader is a make of the
    view that no other make outnumbers, shown with its number of rows and
    a share that is a finite number above 0 and at most 100; the same holds
    for the leading state and for the preferred EV type. *)
Theorem insights_name_most_frequent (filtered : DataFrame) (i : KeyInsights) :
  key_insights filtered = Ok i ->
  (exists make n pct q,
      Market_Leader i = (make, n, pct) /\
      In (Some make) (map Make filtered) /\
      n = occurrences (Some make) (map Make filtered) /\
      (forall k, occurrences (Some k) (map Make filtered) <= n) /\
      pct = Fin q /\ (0 < q)%Q /\ (q <= 100)%Q) /\
  (exists ev_type pct q,
      Vehicle_Preference i = (ev_type, pct) /\
      In (Some ev_type) (map Electric_Vehicle_Type filtered) /\
      (forall k, occurrences (Some k) (map Electric_Vehicle_Type filtered)
                 <= occurrences (Some ev_type) (map Electric_Vehicle_Type filtered)) /\
      pct = Fin q /\ (0 < q)%Q /\ (q <= 100)%Q) /\
  (exists state n pct q,
      Geographic_Leader i = (state, n, pct) /\
      In (Some state) (map State filtered) /\
      n = occurrences (Some state) (map State filtered) /\
      (forall k, occurrences (Some k) (map State filtered) <= n) /\
      pct = Fin q /\ (0 < q)%Q /\ (q <= 100)%Q).
Proof.
  unfold key_insights. intros Hi.
  destruct (index0 (value_counts (map Make filtered))) as [k1|] eqn:E1;
    simpl in Hi; [|discriminate].
  destruct (iloc0 (value_counts (map Make filtered))) as [n1|] eqn:E1';
    simpl in Hi; [|discriminate].
  destruct (index0 (value_counts (map Electric_Vehicle_Type filtered)))
    as [k2|] eqn:E2; simpl in Hi; [|discriminate].
  destruct (iloc0 (value_counts (map Electric_Vehicle_Type filtered)))
    as [n2|] eqn:E2'; simpl in Hi; [|discriminate].
  destruct (index0 (value_counts (map State filtered))) as [k3|] eqn:E3;
    simpl in Hi; [|discriminate].
  destruct (iloc0 (value_counts (map State filtered))) as [n3|] eqn:E3';
    simpl in Hi; [|discriminate].
  injection Hi as <-. simpl.
  destruct (first_entry_most_frequent _ E1 E1') as (A1 & B1 & C1 & D1).
  destruct (first_entry_most_frequent _ E2 E2') as (A2 & B2 & C2 & D2).
  destruct (first_entry_most_frequent _ E3 E3') as (A3 & B3 & C3 & D3).
  rewrite length_map in D1, D2, D3.
  destruct (percent_share D1) as (q1 & P1 & _ & L1 & U1).
  destruct (percent_share D2) as (q2 & P2 & _ & L2 & U2).
  destruct (percent_share D3) as (q3 & P3 & _ & L3 & U3).
  split; [|split].
  - exists k1, n1, (percent n1 (length filtered)), q1. auto 10.
  - exists k2, (percent n2 (length filtered)), q2.
    rewrite <- B2. auto 10.
  - exists k3, n3, (percent n3 (length filtered)), q3. auto 10.
Qed.

End Insights.

(** ** The filter and what the page shows of it *)

Lemma filter_length_split (A : Type) (f : A -> bool) (l : list A) :
  length (filter f l) + length (filter (fun x => negb (f x)) l) = length l.
Proof.
  induction l as [|x l IH]; simpl; [reflexivity|].
  destruct (f x); simpl; lia.
Qed.

Lemma filter_removes_nothing (A : Type) (f : A -> bool) (l : list A) :
  length (filter (fun x => negb (f x)) l) = 0 <-> forall x, In x l -> f x = true.
Proof.
  rewrite length_zero_iff_nil. induction l as [|x l IH]; simpl.
  - tauto.
  - destruct (f x) eqn:E; simpl.
    + rewrite IH. split; [intros Hall y [<-|Hy]; auto | auto].
    + split; [discriminate|]. intros Hall.
      rewrite (Hall x (or_introl eq_refl)) in E. discriminate.
Qed.

(** X4.  The delta under "Total Vehicles" is never positive: it is left
    out exactly when every row of the data frame passes the filter, and
    otherwise it is minus the number of rows the filter removed. *)
Theorem total_vehicles_delta_counts_removed (df : DataFrame) (w : Controls) :
  (total_vehicles_delta df (filtered_df df w) = None
   <-> forall r, In r df -> passes w r) /\
  (forall d, total_vehicles_delta df (filtered_df df w) = Some d ->
             (d < 0)%Z /\
             d = (- Z.of_nat (length (filter (fun r => negb (keep w r)) df)))%Z).
Proof.
  unfold total_vehicles_delta. rewrite filtered_df_filter.
  pose proof (filter_length_split (keep w) df) as Hsplit.
  pose proof (filter_removes_nothing (keep w) df) as Hnone.
  destruct (Nat.eqb_spec (length (filter (keep w) df)) (length df)) as [E|Hne].
  - split; [|discriminate]. split; [|reflexivity]. intros _ r Hr.
    apply keep_passes. apply Hnone; [lia | exact Hr].
  - split.
    + split; [discriminate|]. intros Hall. exfalso. apply Hne.
      assert (H0 : length (filter (fun x => negb (keep w x)) df) = 0).
      { apply Hnone. intros r Hr. apply keep_passes. now apply Hall. }
      lia.
    + intros d [= <-]. lia.
Qed.

(** X5.  Filtering twice with the same controls changes nothing, two
    filters can be applied in either order, and a view is never longer
    than the data frame it comes from. *)
Theorem filters_compose (df : DataFrame) (w w' : Controls) :
  filtered_df (filtered_df df w) w = filtered_df df w /\
  filtered_df (filtered_df df w) w' = filtered_df (filtered_df df w') w /\
  length (filtered_df df w) <= length df.
Proof.
  rewrite !filtered_df_filter. split; [|split].
  - apply filter_filter_imp. auto.
  - rewrite !filter_filter_andb. apply filter_ext. intros r. apply andb_comm.
  - apply filter_length_le.
Qed.

Lemma unique_NoDup (K : Type) `{HashableOk K} (l : list K) : NoDup (unique l).
Proof. rewrite <- value_count_keys. apply value_count_invariant. Qed.

Lemma unique_In (K : Type) `{HashableOk K} (l : list K) (x : K) :
  In x (unique l) <-> In x l.
Proof.
  rewrite <- value_count_keys, in_map_iff. split.
  - intros ([k n] & <- & Hin). now apply value_count_In in Hin.
  - intros Hx. exists (x, occurrences x l). split; [reflexivity|].
    apply value_count_In. now split.
Qed.

Lemma NoDup_map_Some (A : Type) (l : list A) : NoDup l -> NoDup (map Some l).
Proof.
  induction 1 as [|x l Hx _ IH]; simpl; constructor; [|exact IH].
  rewrite in_map_iff. intros (y & [= ->] & Hy). contradiction.
Qed.

Lemma nunique_le_selected (df : DataFrame) (w : Controls)
  (column : Row -> option string) (selected : list (option string)) :
  (forall r, passes w r -> In (column r) selected) ->
  nunique (map column (filtered_df df w)) <= length selected.
Proof.
  intros Hsel. unfold nunique.
  rewrite <- (length_map Some).
  apply NoDup_incl_length.
  - apply NoDup_map_Some. apply (unique_NoDup (K := string)).
  - intros c Hc. apply in_map_iff in Hc. destruct Hc as (k & <- & Hk).
    apply (proj1 (unique_In _ k)), dropna_In, in_map_iff in Hk.
    destruct Hk as (r & <- & Hr). apply Hsel.
    now apply filtered_df_In in Hr.
Qed.

(** X6.  The "Unique Makes" and "States Covered" metrics of a filtered
    view never exceed the number of makes and of states selected in the
    sidebar, nor the number of rows of the view. *)
Theorem metrics_bounded_by_selection (df : DataFrame) (w : Controls) :
  Unique_Makes (key_metrics (filtered_df df w)) <= length (selected_makes w) /\
  States_Covered (key_metrics (filtered_df df w)) <= length (selected_states w) /\
  Unique_Makes (key_metrics (filtered_df df w))
  <= Total_Vehicles (key_metrics (filtered_df df w)) /\
  States_Covered (key_metrics (filtered_df df w))
  <= Total_Vehicles (key_metrics (filtered_df df w)).
Proof.
  simpl. split; [|split; [|split]].
  - apply nunique_le_selected. now intros r (_ & _ & Hr & _).
  - apply nunique_le_selected. now intros r (_ & Hr & _).
  - unfold nunique. rewrite <- (length_map Make (filtered_df df w)).
    etransitivity; [|apply dropna_length_le].
    apply NoDup_incl_length; [apply (unique_NoDup (K := string))|].
    intros k. apply (proj1 (unique_In _ k)).
  - unfold nunique. rewrite <- (length_map State (filtered_df df w)).
    etransitivity; [|apply dropna_length_le].
    apply NoDup_incl_length; [apply (unique_NoDup (K := string))|].
    intros k. apply (proj1 (unique_In _ k)).
Qed.

Lemma head_In (A : Type) (n : nat) (l : list A) (x : A) :
  In x (head n l) -> In x l.
Proof.
  unfold head. intros Hx. rewrite <- (firstn_skipn n l).
  apply in_or_app. now left.
Qed.

Section Charts.
Context {sorter : SortValues} {sorter_ok : SortValuesOk}.

(** X7.  The pie chart has as many slices as the "Unique Makes" metric
    says, up to fifteen; the treemap shows the first ten entries of the
    full make count, which the cut to fifteen in between does not change;
    and the bar chart of EV types and the map of states have one entry per
    distinct value. *)
Theorem slices_match_metrics (filtered : DataFrame) :
  length (make_counts filtered) = Nat.min 15 (Unique_Makes (key_metrics filtered)) /\
  top_10_makes filtered = head 10 (value_counts (map Make filtered)) /\
  length (top_10_makes filtered) = Nat.min 10 (Unique_Makes (key_metrics filtered)) /\
  length (state_counts filtered) = States_Covered (key_metrics filtered) /\
  length (ev_type_counts filtered) = nunique (map Electric_Vehicle_Type filtered).
Proof.
  unfold top_10_makes, make_counts, state_counts, ev_type_counts, head,
    key_metrics.
  cbn [Unique_Makes States_Covered].
  rewrite firstn_firstn, !length_firstn.
  rewrite !(@value_counts_length sorter sorter_ok string _ HashableOk_string).
  change (Nat.min 10 15) with 10.
  repeat split.
Qed.

(** X8.  The charts of a filtered view show selected values only: every
    make of the pie chart is a selected make, every state of the map a
    selected state, every EV type of the bar chart a selected type, and
    every year of the trend line lies within the year slider. *)
Theorem charts_show_selected_only (df : DataFrame) (w : Controls) :
  (forall k n, In (k, n) (make_counts (filtered_df df w)) ->
               In (Some k) (selected_makes w)) /\
  (forall k n, In (k, n) (state_counts (filtered_df df w)) ->
               In (Some k) (selected_states w)) /\
  (forall k n, In (k, n) (ev_type_counts (filtered_df df w)) ->
               In (Some k) (selected_ev_types w)) /\
  (forall y n, In (y, n) (yearly_counts (filtered_df df w)) ->
               (fst (year_range w) <= y <= snd (year_range w))%Z).
Proof.
  assert (Hcol : forall (A : Type) (column : Row -> option A) (v : A),
             In (Some v) (map column (filtered_df df w)) ->
             exists r, column r = Some v /\ passes w r).
  { intros A column v Hin. apply in_map_iff in Hin.
    destruct Hin as (r & Hr & Hin). apply filtered_df_In in Hin.
    exists r. tauto. }
  split; [|split; [|split]].
  - intros k n Hin. apply head_In, value_counts_In in Hin.
    destruct (Hcol _ Make k (proj1 Hin)) as (r & E & _ & _ & Hr & _).
    now rewrite <- E.
  - intros k n Hin. apply value_counts_In in Hin.
    destruct (Hcol _ State k (proj1 Hin)) as (r & E & _ & Hr & _).
    now rewrite <- E.
  - intros k n Hin. apply value_counts_In in Hin.
    destruct (Hcol _ Electric_Vehicle_Type k (proj1 Hin))
      as (r & E & _ & _ & _ & Hr).
    now rewrite <- E.
  - intros y n Hin. apply groupby_size_In in Hin.
    destruct (Hcol _ Model_Year y (proj1 Hin)) as (r & E & (y' & E' & Hy) & _).
    congruence.
Qed.

End Charts.

(** ** The growth chart *)

Lemma Growth_Rate_length (yearly : list (Z * nat)) :
  length (Growth_Rate yearly) = length yearly.
Proof.
  unfold Growth_Rate, pct_change. rewrite length_map.
  destruct yearly as [|[y c] t]; [reflexivity|]. simpl. f_equal.
  revert y c. induction t as [|[y' c'] t IH]; intros y c; [reflexivity|].
  simpl in *. f_equal. apply (IH y' c').
Qed.

Lemma Growth_Rate_nth (yearly : list (Z * nat)) (i : nat) (y0 y1 : Z) (c0 c1 : nat) :
  nth_error yearly i = Some (y0, c0) ->
  nth_error yearly (S i) = Some (y1, c1) ->
  nth_error (Growth_Rate yearly) (S i)
  = Some (mul (sub (truediv (of_count c1) (of_count c0)) (Fin 1)) (Fin 100)).
Proof.
  intros H0 H1.
  assert (Hlen : S i < length yearly) by (apply nth_error_Some; congruence).
  unfold Growth_Rate, pct_change.
  rewrite nth_error_map, nth_error_zip_with.
  rewrite nth_error_shift by now rewrite length_map.
  now rewrite !nth_error_map, H0, H1.
Qed.

Lemma nth_error_combine_inv (A B : Type) (a : list A) (b : list B)
  (i : nat) (x : A) (y : B) :
  nth_error (combine a b) i = Some (x, y) ->
  nth_error a i = Some x /\ nth_error b i = Some y.
Proof.
  revert b i. induction a as [|x0 a IH]; intros [|y0 b] [|i]; simpl;
    try discriminate.
  - intros [= -> ->]. now split.
  - apply IH.
Qed.

Lemma map_fst_combine_same (A B : Type) (a : list A) (b : list B) :
  length a = length b -> map fst (combine a b) = a.
Proof.
  revert b. induction a as [|x a IH]; intros [|y b]; simpl; try discriminate.
  - reflexivity.
  - intros [= E]. now rewrite IH.
Qed.

(** X9.  The growth chart of a view is drawn when the view spans more
    than one model year; it has one bar for each year after the first, and
    every bar is a finite number above -100: no infinity and no missing
    value reaches the chart. *)
Theorem growth_bars_are_finite (filtered : DataFrame) :
  (growth_bars (yearly_counts filtered) = None
   <-> length (yearly_counts filtered) <= 1) /\
  (forall bars,
      growth_bars (yearly_counts filtered) = Some bars ->
      S (length bars) = length (yearly_counts filtered) /\
      map fst bars = tl (map fst (yearly_counts filtered)) /\
      Forall (fun bar => exists q, snd bar = Fin q /\ (-100 < q)%Q) bars).
Proof.
  unfold growth_bars.
  destruct (groupby_size_invariant (map Model_Year filtered)) as [_ Hpos].
  fold (yearly_counts filtered) in Hpos.
  set (yearly := yearly_counts filtered) in *.
  destruct (Nat.ltb_spec 1 (length yearly)) as [Hlen|Hlen].
  - split; [split; [discriminate | lia]|].
    intros bars [= <-].
    assert (Hc : length (combine (map fst yearly) (Growth_Rate yearly))
                 = length yearly).
    { rewrite length_combine, length_map, Growth_Rate_length. lia. }
    split; [|split].
    + destruct (combine (map fst yearly) (Growth_Rate yearly)); simpl in *; lia.
    + rewrite <- (map_fst_combine_same (map fst yearly) (Growth_Rate yearly))
        at 2 by now rewrite length_map, Growth_Rate_length.
      now destruct (combine (map fst yearly) (Growth_Rate yearly)).
    + apply Forall_forall. intros [y g] Hin.
      apply In_nth_error in Hin. destruct Hin as [i Hi].
      assert (Hi' : nth_error (combine (map fst yearly) (Growth_Rate yearly)) (S i)
                    = Some (y, g)).
      { destruct (combine (map fst yearly) (Growth_Rate yearly));
          [destruct i; discriminate | exact Hi]. }
      apply nth_error_combine_inv in Hi'. destruct Hi' as [_ Hg].
      assert (HSi : S i < length yearly).
      { rewrite <- Growth_Rate_length. apply nth_error_Some. congruence. }
      destruct (nth_error yearly i) as [[y0 c0]|] eqn:E0;
        [|apply nth_error_None in E0; lia].
      destruct (nth_error yearly (S i)) as [[y1 c1]|] eqn:E1;
        [|apply nth_error_None in E1; lia].
      rewrite (Growth_Rate_nth _ _ E0 E1) in Hg. injection Hg as <-.
      unfold positive in Hpos. rewrite Forall_forall in Hpos.
      assert (H0 : 1 <= c0) by (apply (Hpos _ (nth_error_In _ _ E0))).
      assert (H1 : 1 <= c1) by (apply (Hpos _ (nth_error_In _ _ E1))).
      unfold of_count. simpl.
      assert (Hz : is_zero (inject_Z (Z.of_nat c0)) = false)
        by (apply is_zero_count; lia).
      rewrite Hz. eexists. split; [reflexivity|].
      assert (Hd : (0 < inject_Z (Z.of_nat c1) / inject_Z (Z.of_nat c0))%Q).
      { apply Qlt_shift_div_l; [unfold Qlt; simpl; lia|].
        rewrite Qmult_0_l. unfold Qlt. simpl. lia. }
      setoid_replace (-100)%Q with ((0 - 1) * 100)%Q by reflexivity.
      apply Qmult_lt_compat_r; [reflexivity|].
      unfold Qminus. apply Qplus_lt_l. exact Hd.
  - split; [split; [intros _; exact Hlen | reflexivity] | discriminate].
Qed.

(** ** The range tab and the pricing tab *)

Lemma boolean_index_filter (A B : Type) (g : A -> B) (p : B -> bool) (l : list A) :
  boolean_index l (map p (map g l)) = filter (fun r => p (g r)) l.
Proof.
  induction l as [|r l IH]; simpl; [reflexivity|].
  destruct (p (g r)); now rewrite IH.
Qed.

Lemma range_data_filter (filtered : DataFrame) :
  range_data filtered = filter (fun r => gt0 (Electric_Range r)) filtered.
Proof. apply boolean_index_filter. Qed.

Lemma range_data_present (filtered : DataFrame) :
  length (dropna (map Electric_Range (range_data filtered)))
  = length (range_data filtered).
Proof.
  rewrite dropna_no_missing; [apply length_map|].
  rewrite in_map_iff. intros (r & Er & Hr).
  rewrite range_data_filter in Hr. apply filter_In in Hr.
  destruct Hr as [_ Hr]. rewrite Er in Hr. discriminate.
Qed.

(** X10.  The range tab, the "Avg Range" metric and the "Average Range"
    insight agree: the tab shows its warning exactly when the metric reads
    "N/A", which is exactly when the insight box is left out, which is
    exactly when no row of the view has a range above zero. *)
Theorem range_tab_agrees_with_metric {sorter : SortValues} (filtered : DataFrame) :
  (range_tab filtered
   = RangeWarning "No range data available for the selected filters."
   <-> range_data filtered = []) /\
  (avg_range_value filtered = Text "N/A" <-> range_data filtered = []) /\
  (average_range_box filtered = None <-> range_data filtered = []) /\
  (range_data filtered = []
   <-> forall r, In r filtered -> gt0 (Electric_Range r) = false).
Proof.
  pose proof (range_data_present filtered) as Hlen.
  unfold range_tab, avg_range_value, average_range_box, avg_range, mean.
  fold (range_data filtered).
  destruct (range_data filtered) as [|r t] eqn:E.
  - simpl. repeat split; auto.
    intros _ r Hr.
    destruct (gt0 (Electric_Range r)) eqn:Eg; [|reflexivity].
    assert (Hin : In r (range_data filtered)).
    { rewrite range_data_filter. apply filter_In. now split. }
    rewrite E in Hin. contradiction.
  - destruct (dropna (map Electric_Range (r :: t))) as [|q v] eqn:Ed;
      [simpl in Hlen; discriminate|].
    simpl. repeat split; try discriminate.
    intros Hall. exfalso.
    assert (Hin : In r (range_data filtered)) by (rewrite E; now left).
    rewrite range_data_filter in Hin. apply filter_In in Hin.
    destruct Hin as [Hin Hg]. rewrite (Hall r Hin) in Hg. discriminate.
Qed.

(** X11.  The scatter plot of the pricing tab shows exactly the rows of
    the view with both a price and a range above zero, in the order of the
    view, whichever of the two tests is applied first; so it has points
    only when the range tab and the price histogram have data too. *)
Theorem price_range_data_both_known (filtered : DataFrame) :
  price_range_data filtered
  = filter (fun r => gt0 (Base_MSRP r) && gt0 (Electric_Range r)) filtered /\
  price_range_data filtered
  = boolean_index (range_data filtered)
      (map gt0 (map Base_MSRP (range_data filtered))) /\
  (price_range_data filtered <> [] ->
   price_data filtered <> [] /\ range_data filtered <> []).
Proof.
  unfold price_range_data, price_data, range_data.
  rewrite !boolean_index_filter, !filter_filter_andb.
  split; [reflexivity|]. split.
  - apply filter_ext. intros r. apply andb_comm.
  - intros Hne. split; intros E; apply Hne.
    + apply filter_all_false. intros r Hr.
      destruct (gt0 (Base_MSRP r)) eqn:Eg; [|reflexivity].
      assert (Hin : In r (filter (fun r => gt0 (Base_MSRP r)) filtered))
        by (apply filter_In; now split).
      rewrite E in Hin. contradiction.
    + apply filter_all_false. intros r Hr.
      destruct (gt0 (Electric_Range r)) eqn:Eg; [|apply andb_false_r].
      assert (Hin : In r (filter (fun r => gt0 (Electric_Range r)) filtered))
        by (apply filter_In; now split).
      rewrite E in Hin. contradiction.
Qed.

(** ** Minimum, maximum and the span of years *)

Lemma fold_min_spec (t : list Z) (x : Z) :
  In (fold_left Z.min t x) (x :: t) /\
  forall y, In y (x :: t) -> (fold_left Z.min t x <= y)%Z.
Proof.
  revert x. induction t as [|z t IH]; intros x; simpl.
  - split; [now left | intros y [<- | []]; lia].
  - destruct (IH (Z.min x z)) as [Hin Hle]. split.
    + destruct Hin as [E | Hin]; [|now right; right].
      rewrite <- E. destruct (Z.min_spec x z) as [[_ ->] | [_ ->]]; auto.
    + specialize (Hle (Z.min x z)) as Hhead.
      intros y [<- | [<- | Hy]]; [| |apply Hle; now right];
        specialize (Hhead (or_introl eq_refl)); lia.
Qed.

Lemma fold_max_spec (t : list Z) (x : Z) :
  In (fold_left Z.max t x) (x :: t) /\
  forall y, In y (x :: t) -> (y <= fold_left Z.max t x)%Z.
Proof.
  revert x. induction t as [|z t IH]; intros x; simpl.
  - split; [now left | intros y [<- | []]; lia].
  - destruct (IH (Z.max x z)) as [Hin Hle]. split.
    + destruct Hin as [E | Hin]; [|now right; right].
      rewrite <- E. destruct (Z.max_spec x z) as [[_ ->] | [_ ->]]; auto.
    + specialize (Hle (Z.max x z)) as Hhead.
      intros y [<- | [<- | Hy]]; [| |apply Hle; now right];
        specialize (Hhead (or_introl eq_refl)); lia.
Qed.

Lemma series_min_spec (s : list (option Z)) :
  match series_min s with
  | None => dropna s = []
  | Some m => In (Some m) s /\ forall y, In (Some y) s -> (m <= y)%Z
  end.
Proof.
  unfold series_min. destruct (dropna s) as [|x t] eqn:E; [reflexivity|].
  destruct (fold_min_spec t x) as [Hin Hle]. rewrite <- E in Hin, Hle.
  split; [now apply dropna_In|]. intros y Hy. apply Hle. now apply dropna_In.
Qed.

Lemma series_max_spec (s : list (option Z)) :
  match series_max s with
  | None => dropna s = []
  | Some m => In (Some m) s /\ forall y, In (Some y) s -> (y <= m)%Z
  end.
Proof.
  unfold series_max. destruct (dropna s) as [|x t] eqn:E; [reflexivity|].
  destruct (fold_max_spec t x) as [Hin Hle]. rewrite <- E in Hin, Hle.
  split; [now apply dropna_In|]. intros y Hy. apply Hle. now apply dropna_In.
Qed.

Lemma sorted_within_length (l : list Z) (a b : Z) :
  StronglySorted Z.lt l ->
  (forall x, In x l -> (a <= x <= b)%Z) ->
  (Z.of_nat (length l) <= Z.max 0 (b - a + 1))%Z.
Proof.
  intros Hs. revert a. induction Hs as [|x l Hs IH Hall]; intros a Hin.
  - simpl. lia.
  - assert (Hx : (a <= x <= b)%Z) by (apply Hin; now left).
    assert (Ht : (Z.of_nat (length l) <= Z.max 0 (b - (x + 1) + 1))%Z).
    { apply IH. intros y Hy. rewrite Forall_forall in Hall.
      specialize (Hall y Hy). specialize (Hin y (or_intror Hy)). lia. }
    simpl length. lia.
Qed.

(** X12.  For a view with rows, the sidebar's "Year Span" is defined, and
    it lies between the number of distinct model years of the view (the
    points of the trend line) and the width of the year slider. *)
Theorem year_span_bounds (df : DataFrame) (w : Controls) :
  filtered_df df w <> [] ->
  exists span,
    quick_stats (filtered_df df w)
    = Some (length (filtered_df df w),
            nunique (map Make (filtered_df df w)), Some span) /\
    (1 <= Z.of_nat (length (yearly_counts (filtered_df df w))) <= span)%Z /\
    (span <= snd (year_range w) - fst (year_range w) + 1)%Z.
Proof.
  intros Hne. unfold quick_stats, year_span.
  set (view := filtered_df df w) in *.
  assert (Hyears : forall y, In (Some y) (map Model_Year view) ->
                             (fst (year_range w) <= y <= snd (year_range w))%Z).
  { intros y Hy. apply in_map_iff in Hy. destruct Hy as (r & Er & Hr).
    apply filtered_df_In in Hr. destruct Hr as [_ ((y' & Ey & Hy') & _)].
    congruence. }
  assert (Hpresent : length (dropna (map Model_Year view)) = length view).
  { apply filtered_column_present. intros r ((y & Ey & _) & _). congruence. }
  destruct view as [|r0 rest] eqn:Ev; [congruence|]. rewrite <- Ev in *.
  assert (Hlen : 0 < length view) by (rewrite Ev; simpl; lia).
  destruct (Nat.ltb_spec 0 (length view)) as [_|]; [|lia].
  pose proof (series_min_spec (map Model_Year view)) as Hmin.
  pose proof (series_max_spec (map Model_Year view)) as Hmax.
  destruct (series_min (map Model_Year view)) as [lo|];
    [|rewrite Hmin in Hpresent; simpl in Hpresent; lia].
  destruct (series_max (map Model_Year view)) as [hi|];
    [|rewrite Hmax in Hpresent; simpl in Hpresent; lia].
  destruct Hmin as [Hlo Hlo_le]. destruct Hmax as [Hhi Hhi_ge].
  exists (hi - lo + 1)%Z. split; [reflexivity|].
  pose proof (Hyears lo Hlo). pose proof (Hyears hi Hhi).
  pose proof (Hlo_le hi Hhi).
  destruct (groupby_size_invariant (map Model_Year view)) as [Hsorted _].
  fold (yearly_counts view) in Hsorted.
  assert (Hwithin : forall y, In y (map fst (yearly_counts view)) ->
                              (lo <= y <= hi)%Z).
  { intros y Hy. apply in_map_iff in Hy. destruct Hy as ([y' c] & <- & Hy).
    apply groupby_size_In in Hy. destruct Hy as [Hy _]. simpl.
    split; [now apply Hlo_le | now apply Hhi_ge]. }
  pose proof (sorted_within_length Hsorted Hwithin) as Hcount.
  rewrite length_map in Hcount.
  assert (Hrows : total (yearly_counts view) = length view).
  { unfold yearly_counts. now rewrite groupby_size_total. }
  assert (Hsome : yearly_counts view <> []).
  { intros E. rewrite E in Hrows. simpl in Hrows. lia. }
  destruct (yearly_counts view); [congruence|]. simpl length in *. lia.
Qed.

(** ** Sorting strings *)

Lemma string_ltb_lt (a b : string) :
  string_ltb a b = true <-> OrdersEx.String_as_OT.lt a b.
Proof.
  unfold string_ltb, OrdersEx.String_as_OT.lt.
  destruct (OrdersEx.String_as_OT.compare a b); split; congruence.
Qed.

Lemma string_ltb_asym (a b : string) :
  string_ltb a b = true -> string_ltb b a = false.
Proof.
  intros Hab. destruct (string_ltb b a) eqn:Hba; [|reflexivity].
  apply string_ltb_lt in Hab, Hba. exfalso.
  apply (StrictOrder_Irreflexive (R := OrdersEx.String_as_OT.lt) a).
  now transitivity b.
Qed.

Lemma string_ltb_trans_le (x y z : string) :
  string_ltb y x = false -> string_ltb z y = false -> string_ltb z x = false.
Proof.
  intros Hxy Hyz. destruct (string_ltb z x) eqn:Hzx; [|reflexivity].
  exfalso. apply string_ltb_lt in Hzx.
  destruct (OrdersEx.String_as_OT.compare_spec y x) as [E | Hlt | Hgt].
  - unfold OrdersEx.String_as_OT.eq in E. subst y.
    apply string_ltb_lt in Hzx. congruence.
  - apply string_ltb_lt in Hlt. congruence.
  - assert (Hzy : OrdersEx.String_as_OT.lt z y) by now transitivity x.
    apply string_ltb_lt in Hzy. congruence.
Qed.

Lemma insort_perm (x : string) (l : list string) : Permutation (x :: l) (insort x l).
Proof.
  induction l as [|y t IH]; simpl; [reflexivity|].
  destruct (string_ltb y x); [|reflexivity].
  rewrite perm_swap. now constructor.
Qed.

Lemma sorted_strings_perm (l : list string) : Permutation l (sorted_strings l).
Proof.
  induction l as [|x t IH]; simpl; [constructor|].
  rewrite <- insort_perm. now constructor.
Qed.

Lemma insort_sorted (x : string) (l : list string) :
  StronglySorted (fun a b => string_ltb b a = false) l ->
  StronglySorted (fun a b => string_ltb b a = false) (insort x l).
Proof.
  induction l as [|y t IH]; simpl; intros Hs.
  - repeat constructor.
  - inversion Hs as [|? ? Hs' Hall]; subst.
    destruct (string_ltb y x) eqn:Hyx.
    + constructor; [now apply IH|].
      rewrite Forall_forall in *. intros z Hz.
      apply (Permutation_in _ (Permutation_sym (insort_perm x t))) in Hz.
      destruct Hz as [<- | Hz]; [now apply string_ltb_asym | auto].
    + constructor; [exact Hs|]. constructor; [exact Hyx|].
      rewrite Forall_forall in *. intros z Hz.
      apply (string_ltb_trans_le x y z Hyx). auto.
Qed.

Lemma sorted_strings_sorted (l : list string) :
  StronglySorted (fun a b => string_ltb b a = false) (sorted_strings l).
Proof.
  induction l as [|x t IH]; simpl; [constructor | now apply insort_sorted].
Qed.

Lemma sorted_map_Some (l : list string) :
  StronglySorted (fun a b => string_ltb b a = false) l ->
  StronglySorted cell_le (map Some l).
Proof.
  induction 1 as [|x l _ IH Hall]; simpl; constructor; [exact IH|].
  rewrite Forall_forall in *. intros c Hc.
  apply in_map_iff in Hc. destruct Hc as (y & <- & Hy). simpl. auto.
Qed.

Lemma dropna_NoDup (K : Type) (l : list (option K)) :
  NoDup l -> NoDup (dropna l).
Proof.
  induction 1 as [|[x|] l Hx _ IH]; simpl; [constructor | | exact IH].
  constructor; [|exact IH]. now rewrite dropna_In.
Qed.

Lemma dropna_all_missing (K : Type) (l : list (option K)) :
  dropna l = [] <-> forall c, In c l -> c = None.
Proof.
  induction l as [|[x|] l IH]; simpl.
  - tauto.
  - split; [discriminate|]. intros Hall.
    specialize (Hall (Some x) (or_introl eq_refl)). discriminate.
  - rewrite IH. split; [intros Hall c [<- | Hc]; auto | auto].
Qed.

Lemma dropna_unique_empty (column : list (option string)) :
  dropna (unique column) = [] <-> dropna column = [].
Proof.
  rewrite !dropna_all_missing. split; intros Hall c Hc; apply Hall.
  - now apply (proj2 (unique_In _ c)).
  - now apply (proj1 (unique_In _ c)).
Qed.

Lemma sorted_all_missing (l : list (option string)) :
  (forall c, In c l -> c = None) -> StronglySorted cell_le l.
Proof.
  induction l as [|c u IH]; intros Hall; constructor.
  - apply IH. intros c' Hc'. apply Hall. now right.
  - apply Forall_forall. intros c' _.
    rewrite (Hall c (or_introl eq_refl)). exact I.
Qed.

Lemma sorted_unique_Done (column l : list (option string)) :
  sorted_unique column = Done l ->
  (forall c, In c l <-> In c column) /\ NoDup l /\ StronglySorted cell_le l.
Proof.
  unfold sorted_unique.
  destruct (isin (unique column) None) eqn:Enone.
  - destruct (dropna (unique column)) as [|x t] eqn:Ed; [|discriminate].
    intros [= <-]. split; [intros c; apply (unique_In column c)|].
    split; [apply (unique_NoDup (K := option string))|].
    apply sorted_all_missing. now apply dropna_all_missing.
  - intros [= <-].
    assert (Hnone : ~ In None (unique column)).
    { rewrite <- isin_In. congruence. }
    split; [|split].
    + intros c. rewrite in_map_iff. split.
      * intros (x & <- & Hx).
        apply (Permutation_in _ (Permutation_sym (sorted_strings_perm _))) in Hx.
        apply dropna_In in Hx. now apply (proj1 (unique_In _ (Some x))).
      * intros Hc. apply (proj2 (unique_In _ c)) in Hc.
        destruct c as [x|]; [|contradiction].
        exists x. split; [reflexivity|].
        apply (Permutation_in _ (sorted_strings_perm _)). now apply dropna_In.
    + apply NoDup_map_Some.
      apply (Permutation_NoDup (sorted_strings_perm _)).
      apply dropna_NoDup. apply (unique_NoDup (K := option string)).
    + apply sorted_map_Some, sorted_strings_sorted.
Qed.

Lemma sorted_unique_Fails (column : list (option string)) (e : sidebar_error) :
  sorted_unique column = Fails e
  <-> e = TypeError /\ In None column /\ dropna column <> [].
Proof.
  unfold sorted_unique.
  destruct (isin (unique column) None) eqn:Enone.
  - apply isin_In in Enone. apply (proj1 (unique_In _ None)) in Enone.
    rewrite <- dropna_unique_empty.
    destruct (dropna (unique column)) as [|x t].
    + split; [discriminate | intros (_ & _ & Hne); congruence].
    + split; [intros [= <-]; repeat split; auto; discriminate | now intros [-> _]].
  - split; [discriminate|]. intros (_ & Hin & _).
    apply (proj2 (unique_In _ None)) in Hin. apply isin_In in Hin. congruence.
Qed.

(** ** The initial selections *)

Lemma default_controls_Done {sorter : SortValues} (df : DataFrame) (w : Controls) :
  default_controls df = Done w ->
  exists lo hi states,
    series_min (map Model_Year df) = Some lo /\
    series_max (map Model_Year df) = Some hi /\
    (lo < hi)%Z /\
    sorted_unique (map State df) = Done states /\
    w = {| year_range := (lo, hi);
           selected_states := firstn 5 states;
           selected_makes :=
             map Some (map fst (head 10 (value_counts (map Make df))));
           selected_ev_types := unique (map Electric_Vehicle_Type df) |}.
Proof.
  unfold default_controls, slider.
  destruct (series_min (map Model_Year df)) as [lo|]; simpl; [|discriminate].
  destruct (series_max (map Model_Year df)) as [hi|]; simpl; [|discriminate].
  destruct (Z.ltb_spec lo hi) as [Hlt|]; simpl; [|discriminate].
  destruct (sorted_unique (map State df)) as [states|]; simpl; [|discriminate].
  destruct (sorted_unique (map Make df)) as [makes|]; simpl; [|discriminate].
  intros [= <-]. now exists lo, hi, states.
Qed.

(** X13.  What stops the script in the sidebar.  With no model year in
    the data, [int] of the missing minimum raises ValueError.  With model
    years that are all the same, the slider is given equal ends and raises.
    With at least two different model years, a state column that holds
    both a missing value and a string makes [sorted] raise TypeError, and
    so does such a make column when no state is missing. *)
Theorem default_controls_failures {sorter : SortValues} (df : DataFrame) :
  (dropna (map Model_Year df) = [] -> default_controls df = Fails ValueError) /\
  (forall y, In (Some y) (map Model_Year df) ->
             (forall y', In (Some y') (map Model_Year df) -> y' = y) ->
             default_controls df = Fails StreamlitInvalidMinMaxError) /\
  (forall y y', In (Some y) (map Model_Year df) ->
                In (Some y') (map Model_Year df) -> y <> y' ->
                (In None (map State df) /\ dropna (map State df) <> [] ->
                 default_controls df = Fails TypeError) /\
                (~ In None (map State df) ->
                 In None (map Make df) /\ dropna (map Make df) <> [] ->
                 default_controls df = Fails TypeError)).
Proof.
  unfold default_controls, slider.
  pose proof (series_min_spec (map Model_Year df)) as Hmin.
  pose proof (series_max_spec (map Model_Year df)) as Hmax.
  split; [|split].
  - intros Hnone.
    destruct (series_min (map Model_Year df)) as [lo|]; [|reflexivity].
    destruct Hmin as [Hlo _]. apply dropna_In in Hlo.
    rewrite Hnone in Hlo. contradiction.
  - intros y Hy Hsame.
    destruct (series_min (map Model_Year df)) as [lo|];
      [|apply dropna_In in Hy; rewrite Hmin in Hy; contradiction].
    destruct (series_max (map Model_Year df)) as [hi|];
      [|apply dropna_In in Hy; rewrite Hmax in Hy; contradiction].
    destruct Hmin as [Hlo _]. destruct Hmax as [Hhi _].
    apply Hsame in Hlo, Hhi. subst lo hi. simpl.
    now rewrite Z.ltb_irrefl.
  - intros y y' Hy Hy' Hne.
    destruct (series_min (map Model_Year df)) as [lo|];
      [|apply dropna_In in Hy; rewrite Hmin in Hy; contradiction].
    destruct (series_max (map Model_Year df)) as [hi|];
      [|apply dropna_In in Hy; rewrite Hmax in Hy; contradiction].
    destruct Hmin as [_ Hlo]. destruct Hmax as [_ Hhi]. simpl.
    assert (Hlt : (lo < hi)%Z).
    { pose proof (Hlo y Hy). pose proof (Hlo y' Hy').
      pose proof (Hhi y Hy). pose proof (Hhi y' Hy'). lia. }
    apply Z.ltb_lt in Hlt. rewrite Hlt. simpl.
    pose proof (sorted_unique_Fails (map State df) TypeError) as Hstate.
    pose proof (sorted_unique_Fails (map Make df) TypeError) as Hmake.
    split.
    + intros Hmixed. rewrite (proj2 Hstate); [reflexivity | tauto].
    + intros Hpresent Hmixed.
      destruct (sorted_unique (map State df)) as [states|e] eqn:Es; simpl.
      * rewrite (proj2 Hmake); [reflexivity | tauto].
      * apply sorted_unique_Fails in Es. tauto.
Qed.

(** X14.  On its first run the page starts from the widest year range and
    every EV type: the slider ends are the least and the greatest model
    year of the data (both occur, every model year lies between them, and
    they differ), and a row passes the initial filter exactly when it has
    a model year, its state is among the initial states and its make among
    the initial makes.  The initial makes are at most ten, all makes
    of the data, none missing, and no make left out occurs more often than
    one of them. *)
Theorem default_controls_start {sorter : SortValues} {sorter_ok : SortValuesOk}
  (df : DataFrame) (w : Controls) :
  default_controls df = Done w ->
  (fst (year_range w) < snd (year_range w))%Z /\
  In (Some (fst (year_range w))) (map Model_Year df) /\
  In (Some (snd (year_range w))) (map Model_Year df) /\
  (forall y, In (Some y) (map Model_Year df) ->
             (fst (year_range w) <= y <= snd (year_range w))%Z) /\
  (forall r, In r df ->
             (passes w r <-> Model_Year r <> None /\
                             In (State r) (selected_states w) /\
                             In (Make r) (selected_makes w))) /\
  length (selected_makes w) <= 10 /\
  ~ In None (selected_makes w) /\
  (forall m, In m (selected_makes w) -> In m (map Make df)) /\
  (forall a b, In (Some a) (selected_makes w) ->
               ~ In (Some b) (selected_makes w) ->
               occurrences (Some b) (map Make df)
               <= occurrences (Some a) (map Make df)).
Proof.
  intros Hw.
  destruct (default_controls_Done df Hw)
    as (lo & hi & states & Emin & Emax & Hlt & _ & ->).
  cbn [year_range selected_states selected_makes selected_ev_types fst snd].
  pose proof (series_min_spec (map Model_Year df)) as Hmin.
  pose proof (series_max_spec (map Model_Year df)) as Hmax.
  rewrite Emin in Hmin. rewrite Emax in Hmax.
  destruct Hmin as [Hlo Hlo_le]. destruct Hmax as [Hhi Hhi_ge].
  split; [exact Hlt|]. split; [exact Hlo|]. split; [exact Hhi|].
  split; [intros y Hy; split; [now apply Hlo_le | now apply Hhi_ge]|].
  split; [|split; [|split; [|split]]].
  - intros r Hr. unfold passes.
    cbn [year_range selected_states selected_makes selected_ev_types fst snd].
    split.
    + intros ((y & Ey & _) & Hs & Hm & _). rewrite Ey. repeat split; auto.
      discriminate.
    + intros (Hy & Hs & Hm). destruct (Model_Year r) as [y|] eqn:Ey; [|congruence].
      assert (Hin : In (Some y) (map Model_Year df)).
      { rewrite <- Ey. now apply in_map. }
      split; [exists y; split; [reflexivity | split; auto]|].
      split; [exact Hs|]. split; [exact Hm|].
      apply (proj2 (unique_In _ (Electric_Vehicle_Type r))). now apply in_map.
  - rewrite !length_map. unfold head. apply firstn_le_length.
  - rewrite in_map_iff. intros (x & Ex & _). discriminate.
  - intros m Hm. apply in_map_iff in Hm. destruct Hm as (k & <- & Hk).
    apply in_map_iff in Hk. destruct Hk as ([k' n] & <- & Hk).
    apply head_In, value_counts_In in Hk. tauto.
  - intros a b Ha Hb.
    destruct (value_counts_head (map Make df) 10) as (rest & Esplit & _ & Hge).
    assert (Ha' : exists n, In (a, n) (head 10 (value_counts (map Make df)))).
    { apply in_map_iff in Ha. destruct Ha as (k & [= ->] & Hk).
      apply in_map_iff in Hk. destruct Hk as ([k' n] & Ek & Hk).
      simpl in Ek. subst k'. now exists n. }
    destruct Ha' as [n Han].
    assert (Hna : n = occurrences (Some a) (map Make df)).
    { apply head_In, value_counts_In in Han. tauto. }
    destruct (Nat.eq_dec (occurrences (Some b) (map Make df)) 0) as [E0|Hpos];
      [lia|].
    assert (Hbin : In (b, occurrences (Some b) (map Make df))
                     (value_counts (map Make df))).
    { apply value_counts_In. split; [|reflexivity].
      now apply occurrences_pos. }
    rewrite Esplit in Hbin. apply in_app_or in Hbin.
    destruct Hbin as [Hbin | Hbin].
    + exfalso. apply Hb. apply in_map_iff. exists b. split; [reflexivity|].
      apply in_map_iff. now exists (b, occurrences (Some b) (map Make df)).
    + specialize (Hge _ _ Han Hbin). simpl in Hge. lia.
Qed.

(** X15.  The initial states are the first five of the distinct states of
    the data in sorted order, whatever their frequencies: at most five,
    all different, all states of the data, and no state left out sorts
    before one of them. *)
Theorem default_states_first_in_order {sorter : SortValues}
  (df : DataFrame) (w : Controls) :
  default_controls df = Done w ->
  length (selected_states w) <= 5 /\
  NoDup (selected_states w) /\
  (forall s, In s (selected_states w) -> In s (map State df)) /\
  (length (selected_states w) < 5 ->
   forall s, In s (map State df) -> In s (selected_states w)) /\
  (forall a b, In (Some a) (selected_states w) ->
               In (Some b) (map State df) ->
               ~ In (Some b) (selected_states w) ->
               string_ltb b a = false).
Proof.
  intros Hw.
  destruct (default_controls_Done df Hw)
    as (lo & hi & states & _ & _ & _ & Es & ->).
  cbn [selected_states]. clear Hw.
  destruct (sorted_unique_Done _ Es) as (Hin & Hnd & Hsorted).
  rewrite <- (firstn_skipn 5 states) in Hnd, Hsorted.
  split; [apply firstn_le_length|].
  split; [now apply NoDup_app_remove_r in Hnd|].
  split; [|split].
  - intros s Hs. apply Hin. rewrite <- (firstn_skipn 5 states).
    apply in_or_app. now left.
  - intros Hshort s Hs. apply Hin in Hs.
    rewrite firstn_all2; [exact Hs|].
    rewrite length_firstn in Hshort. lia.
  - intros a b Ha Hb Hnb.
    apply Hin in Hb. rewrite <- (firstn_skipn 5 states) in Hb.
    apply in_app_or in Hb. destruct Hb as [Hb | Hb]; [contradiction|].
    apply (sorted_app_ge _ _ Hsorted (Some a) (Some b) Ha Hb).
Qed.

(** ** Group-by over ordered keys *)

#[export] Instance OrderedOk_Z : OrderedOk Z.
Proof.
  split; unfold key_ltb, Ordered_Z.
  - apply Z.ltb_irrefl.
  - intros x y z. rewrite !Z.ltb_lt. lia.
  - intros x y. rewrite !Z.ltb_ge. lia.
Qed.

#[export] Instance OrderedOk_string : OrderedOk string.
Proof.
  split; unfold key_ltb, Ordered_string.
  - intros x. destruct (string_ltb x x) eqn:E; [|reflexivity].
    apply string_ltb_asym in E as E'. congruence.
  - intros x y z. rewrite !string_ltb_lt. intros Hxy Hyz. now transitivity y.
  - intros x y Hxy Hyx.
    destruct (OrdersEx.String_as_OT.compare_spec x y) as [E | Hlt | Hgt].
    + exact E.
    + apply string_ltb_lt in Hlt. congruence.
    + apply string_ltb_lt in Hgt. congruence.
Qed.

#[export] Instance HashableOk_prod {A B} `{HashableOk A} `{HashableOk B} :
  HashableOk (A * B).
Proof.
  intros [a b] [c d]. unfold key_eqb, Hashable_prod. simpl.
  destruct (key_eqb_spec a c) as [->|Ha]; simpl.
  - destruct (key_eqb_spec b d) as [->|Hb]; constructor; congruence.
  - constructor; congruence.
Qed.

Lemma key_ltb_prod (A B : Type) `{Hashable A} `{Ordered A} `{Ordered B}
  (a c : A) (b d : B) :
  key_ltb (a, b) (c, d) = key_ltb a c || (key_eqb a c && key_ltb b d).
Proof. reflexivity. Qed.

#[export] Instance OrderedOk_prod {A B} `{HashableOk A} `{OrderedOk A} `{OrderedOk B} :
  OrderedOk (A * B).
Proof.
  split.
  - intros [a b]. rewrite key_ltb_prod.
    now rewrite (key_ltb_irrefl a), (key_ltb_irrefl b), andb_false_r.
  - intros [a b] [c d] [e f]. rewrite !key_ltb_prod.
    rewrite !orb_true_iff, !andb_true_iff, !key_eqb_eq.
    intros [Hac | [-> Hbd]] [Hce | [-> Hdf]].
    + left. now apply (key_ltb_trans a c e).
    + now left.
    + now left.
    + right. split; [reflexivity|]. now apply (key_ltb_trans b d f).
  - intros [a b] [c d]. rewrite !key_ltb_prod.
    rewrite !orb_false_iff, !andb_false_iff.
    intros [Hac Hfst] [Hca Hsnd].
    assert (E : a = c) by now apply key_ltb_total.
    subst c. rewrite key_eqb_refl in Hfst, Hsnd.
    destruct Hfst as [Hfst | Hfst]; [discriminate|].
    destruct Hsnd as [Hsnd | Hsnd]; [discriminate|].
    f_equal. now apply key_ltb_total.
Qed.

Section OrderedGroupBy.
Context {K : Type} `{HashableOk K} `{OrderedOk K}.

Lemma total_tally_by (k : K) (tbl : list (K * nat)) :
  total (tally_by k tbl) = S (total tbl).
Proof.
  induction tbl as [|[k0 n] t IH]; simpl; [reflexivity|].
  destruct (key_ltb k k0); [reflexivity|].
  destruct (key_eqb k k0); simpl; lia.
Qed.

Lemma positive_tally_by (k : K) (tbl : list (K * nat)) :
  positive tbl -> positive (tally_by k tbl).
Proof.
  unfold positive.
  induction tbl as [|[k0 n] t IH]; simpl; intros Hp.
  - repeat constructor.
  - inversion Hp as [|? ? Hn Ht]; subst. simpl in Hn.
    destruct (key_ltb k k0); [constructor; simpl; auto|].
    destruct (key_eqb k k0); constructor; simpl; auto; lia.
Qed.

Lemma keys_tally_by_In (k x : K) (tbl : list (K * nat)) :
  In x (map fst (tally_by k tbl)) <-> x = k \/ In x (map fst tbl).
Proof.
  induction tbl as [|[k0 n] t IH]; simpl.
  - intuition.
  - destruct (key_ltb k k0); [simpl; intuition|].
    destruct (key_eqb_spec k k0) as [->|Hne]; simpl.
    + intuition.
    + rewrite IH. intuition.
Qed.

Lemma keys_ascending_tally_by (k : K) (tbl : list (K * nat)) :
  keys_ascending tbl -> keys_ascending (tally_by k tbl).
Proof.
  unfold keys_ascending.
  induction tbl as [|[k0 n] t IH]; simpl; intros Hs.
  - repeat constructor.
  - inversion Hs as [|? ? Hs' Hall]; subst.
    destruct (key_ltb k k0) eqn:Hlt.
    + constructor; [exact Hs|]. constructor; [exact Hlt|].
      eapply Forall_impl; [|exact Hall]. simpl. intros x Hx.
      now apply (key_ltb_trans k k0 x).
    + destruct (key_eqb_spec k k0) as [->|Hne]; simpl; [exact Hs|].
      constructor; [now apply IH|].
      rewrite Forall_forall in *. intros x Hx.
      apply keys_tally_by_In in Hx. destruct Hx as [->|Hx]; [|auto].
      destruct (key_ltb k0 k) eqn:Hgt; [reflexivity|].
      exfalso. apply Hne. now apply key_ltb_total.
Qed.

Lemma lookup_tally_by (k k' : K) (tbl : list (K * nat)) :
  keys_ascending tbl ->
  lookup k (tally_by k' tbl)
  = if key_eqb k k' then S (lookup k tbl) else lookup k tbl.
Proof.
  unfold keys_ascending.
  induction tbl as [|[k0 n] t IH]; simpl; intros Hs.
  - now destruct (key_eqb k k').
  - inversion Hs as [|? ? Hs' Hall]; subst. specialize (IH Hs').
    destruct (key_ltb k' k0) eqn:Hlt; simpl.
    + destruct (key_eqb_spec k k') as [->|Hne]; [|reflexivity].
      destruct (key_eqb_spec k' k0) as [->|Hne0].
      * rewrite key_ltb_irrefl in Hlt. discriminate.
      * rewrite lookup_absent; [reflexivity|].
        intros Hin. rewrite Forall_forall in Hall. specialize (Hall k' Hin).
        assert (Hcyc : key_ltb k' k' = true) by now apply (key_ltb_trans k' k0 k').
        rewrite key_ltb_irrefl in Hcyc. discriminate.
    + destruct (key_eqb_spec k' k0) as [->|Hne0]; simpl.
      * now destruct (key_eqb k k0).
      * rewrite IH.
        destruct (key_eqb_spec k k0) as [->|Hne1]; [|reflexivity].
        destruct (key_eqb_spec k0 k'); [congruence | reflexivity].
Qed.

Lemma fold_tally_by_invariant (l : list K) (acc : list (K * nat)) :
  keys_ascending acc -> positive acc ->
  keys_ascending (fold_left (fun tbl k => tally_by k tbl) l acc) /\
  positive (fold_left (fun tbl k => tally_by k tbl) l acc).
Proof.
  revert acc. induction l as [|x l IH]; intros acc Hs Hp; simpl; [auto|].
  apply IH; [now apply keys_ascending_tally_by | now apply positive_tally_by].
Qed.

Lemma fold_tally_by_lookup (k : K) (l : list K) (acc : list (K * nat)) :
  keys_ascending acc ->
  lookup k (fold_left (fun tbl x => tally_by x tbl) l acc)
  = lookup k acc + occurrences k l.
Proof.
  unfold occurrences. revert acc.
  induction l as [|x l IH]; intros acc Hs; simpl; [lia|].
  rewrite IH by now apply keys_ascending_tally_by.
  rewrite lookup_tally_by by assumption.
  destruct (key_eqb k x); simpl; lia.
Qed.

Lemma fold_tally_by_total (l : list K) (acc : list (K * nat)) :
  total (fold_left (fun tbl x => tally_by x tbl) l acc) = total acc + length l.
Proof.
  revert acc. induction l as [|x l IH]; intros acc; simpl; [lia|].
  rewrite IH, total_tally_by. lia.
Qed.

Lemma keys_ascending_NoDup (tbl : list (K * nat)) :
  keys_ascending tbl -> NoDup (map fst tbl).
Proof.
  unfold keys_ascending.
  induction 1 as [|x l _ IH Hall]; constructor; [|assumption].
  intros Hin. rewrite Forall_forall in Hall. specialize (Hall x Hin).
  rewrite key_ltb_irrefl in Hall. discriminate.
Qed.

End OrderedGroupBy.

Section GroupBy2.
Context {A B : Type} `{HashableOk A} `{HashableOk B}.
Context {ordA : Ordered A} {ordA_ok : OrderedOk A}.
Context {ordB : Ordered B} {ordB_ok : OrderedOk B}.

Lemma groupby2_size_invariant (keys : list (option A * option B)) :
  keys_ascending (groupby2_size keys) /\ positive (groupby2_size keys).
Proof. apply fold_tally_by_invariant; constructor. Qed.

Lemma groupby2_size_In (keys : list (option A * option B)) (k : A * B) (c : nat) :
  In (k, c) (groupby2_size keys)
  <-> In k (dropna2 keys) /\ c = occurrences k (dropna2 keys).
Proof.
  destruct (groupby2_size_invariant keys) as [Hs Hp].
  rewrite (lookup_In k c (keys_ascending_NoDup Hs) Hp).
  unfold groupby2_size. rewrite fold_tally_by_lookup by constructor. simpl.
  rewrite <- occurrences_pos.
  split; intros [H3 H4]; subst; auto.
Qed.

Lemma groupby2_size_total (keys : list (option A * option B)) :
  total (groupby2_size keys) = length (dropna2 keys).
Proof. unfold groupby2_size. now rewrite fold_tally_by_total. Qed.

End GroupBy2.

Lemma dropna2_In (A B : Type) (keys : list (option A * option B)) (a : A) (b : B) :
  In (a, b) (dropna2 keys) <-> In (Some a, Some b) keys.
Proof.
  induction keys as [|[[x|] [y|]] t IH]; simpl; rewrite ?IH.
  - tauto.
  - split; intros [E | Hin]; auto; left; congruence.
  - split; [auto | intros [E | Hin]; [discriminate | assumption]].
  - split; [auto | intros [E | Hin]; [discriminate | assumption]].
  - split; [auto | intros [E | Hin]; [discriminate | assumption]].
Qed.

Lemma dropna2_length_le (A B : Type) (keys : list (option A * option B)) :
  length (dropna2 keys) <= length keys.
Proof. induction keys as [|[[x|] [y|]] t IH]; simpl; lia. Qed.

(** The occurrences of a pair of keys are the rows that hold both. *)
Lemma occurrences_dropna2 (A B : Type) `{HashableOk A} `{HashableOk B}
  (R : Type) (f : R -> option A) (g : R -> option B) (rows : list R) (a : A) (b : B) :
  occurrences (a, b) (dropna2 (map (fun r => (f r, g r)) rows))
  = length (filter (fun r => key_eqb (Some a) (f r) && key_eqb (Some b) (g r)) rows).
Proof.
  unfold occurrences.
  induction rows as [|r t IH]; simpl; [reflexivity|].
  destruct (f r) as [x|], (g r) as [y|]; simpl.
  - change (key_eqb (a, b) (x, y)) with (key_eqb a x && key_eqb b y).
    change (key_eqb (Some a) (Some x)) with (key_eqb a x).
    change (key_eqb (Some b) (Some y)) with (key_eqb b y).
    destruct (key_eqb a x && key_eqb b y); simpl; now rewrite IH.
  - change (key_eqb (Some b) None) with false.
    rewrite andb_false_r. exact IH.
  - exact IH.
  - exact IH.
Qed.

Lemma dropna2_present (A B R : Type) (f : R -> option A) (g : R -> option B)
  (rows : list R) :
  (forall r, In r rows -> f r <> None /\ g r <> None) ->
  length (dropna2 (map (fun r => (f r, g r)) rows)) = length rows.
Proof.
  induction rows as [|r t IH]; simpl; intros Hp; [reflexivity|].
  destruct (Hp r (or_introl eq_refl)) as [Hf Hg].
  destruct (f r), (g r); try congruence. simpl. rewrite IH; auto.
Qed.

Lemma sorted_prefix (A : Type) (R : A -> A -> Prop) (l1 l2 : list A) :
  StronglySorted R (l1 ++ l2) -> StronglySorted R l1.
Proof.
  induction l1 as [|x l1 IH]; simpl; intros Hs; [constructor|].
  inversion Hs as [|? ? Hs' Hall]; subst. constructor; [now apply IH|].
  rewrite Forall_forall in *. intros y Hy. apply Hall. apply in_or_app. now left.
Qed.

Lemma sorted_map (A B : Type) (R : A -> A -> Prop) (R' : B -> B -> Prop)
  (f : A -> B) (l : list A) :
  (forall a b, R a b -> R' (f a) (f b)) ->
  StronglySorted R l -> StronglySorted R' (map f l).
Proof.
  intros HR. induction 1 as [|x l _ IH Hall]; simpl; constructor; [exact IH|].
  rewrite Forall_forall in *. intros y Hy.
  apply in_map_iff in Hy. destruct Hy as (z & <- & Hz). auto.
Qed.

Section MoreCharts.
Context {sorter : SortValues} {sorter_ok : SortValuesOk}.

Lemma top_makes_In (filtered : DataFrame) (n : nat) (m : string) :
  In m (map fst (head n (value_counts (map Make filtered)))) ->
  In (Some m) (map Make filtered).
Proof.
  rewrite in_map_iff. intros ([k c] & <- & Hk).
  apply head_In, value_counts_In in Hk. tauto.
Qed.

Lemma head_keys_most_frequent (s : list (option string)) (n : nat) (a b : string) :
  In a (map fst (head n (value_counts s))) ->
  ~ In b (map fst (head n (value_counts s))) ->
  occurrences (Some b) s <= occurrences (Some a) s.
Proof.
  intros Ha Hb.
  destruct (value_counts_head s n) as (rest & Esplit & _ & Hge).
  apply in_map_iff in Ha. destruct Ha as ([a' c] & Ea & Hac).
  simpl in Ea. subst a'.
  assert (Hc : c = occurrences (Some a) s).
  { apply head_In, value_counts_In in Hac. tauto. }
  destruct (Nat.eq_dec (occurrences (Some b) s) 0) as [E0|Hpos]; [lia|].
  assert (Hbin : In (b, occurrences (Some b) s) (value_counts s)).
  { apply value_counts_In. split; [|reflexivity]. now apply occurrences_pos. }
  rewrite Esplit in Hbin. apply in_app_or in Hbin.
  destruct Hbin as [Hbin | Hbin].
  - exfalso. apply Hb. apply in_map_iff.
    now exists (b, occurrences (Some b) s).
  - specialize (Hge _ _ Hac Hbin). simpl in Hge. lia.
Qed.

Lemma isin_Some (l : list string) (c : option string) :
  isin (map Some l) c = true <-> exists m, c = Some m /\ In m l.
Proof.
  rewrite isin_In, in_map_iff. split.
  - intros (m & <- & Hm). now exists m.
  - intros (m & -> & Hm). now exists m.
Qed.

(** X16.  The lines of "Top Makes Over Time" are drawn for at most five
    makes, the most frequent ones of the view.  The table behind them is
    in ascending order of year and then make, holds one row for each year
    and top make that occur together, with the number of registrations of
    that make in that year, and adds up to the registrations of the top
    makes. *)
Theorem top_makes_over_time (df : DataFrame) (w : Controls) :
  length (top_makes (filtered_df df w)) <= 5 /\
  (forall a b, In a (top_makes (filtered_df df w)) ->
               ~ In b (top_makes (filtered_df df w)) ->
               occurrences (Some b) (map Make (filtered_df df w))
               <= occurrences (Some a) (map Make (filtered_df df w))) /\
  keys_ascending (yearly_make_data (filtered_df df w)) /\
  (forall y m c,
      In ((y, m), c) (yearly_make_data (filtered_df df w))
      <-> In m (top_makes (filtered_df df w)) /\ c <> 0 /\
          c = length (filter (fun r => key_eqb (Some y) (Model_Year r)
                                       && key_eqb (Some m) (Make r))
                        (filtered_df df w))) /\
  total (yearly_make_data (filtered_df df w))
  = length (filter (fun r => isin (map Some (top_makes (filtered_df df w))) (Make r))
              (filtered_df df w)).
Proof.
  set (view := filtered_df df w).
  unfold yearly_make_data. fold view.
  rewrite (boolean_index_filter Make
             (isin (map Some (top_makes view))) view).
  set (top := top_makes view).
  set (rows := filter (fun r => isin (map Some top) (Make r)) view).
  assert (Hcount : forall y m,
             In m top ->
             occurrences (y, m) (dropna2 (map (fun r => (Model_Year r, Make r)) rows))
             = length (filter (fun r => key_eqb (Some y) (Model_Year r)
                                        && key_eqb (Some m) (Make r)) view)).
  { intros y m Hm. rewrite occurrences_dropna2; try exact _. unfold rows.
    rewrite filter_filter_andb. f_equal. apply filter_ext. intros r.
    destruct (key_eqb_spec (Some m) (Make r)) as [<-|Hne];
      [|now rewrite andb_false_r, andb_false_r].
    assert (Hin : isin (map Some top) (Some m) = true).
    { apply isin_Some. now exists m. }
    now rewrite Hin. }
  split; [|split; [|split; [|split]]].
  - unfold top, top_makes, head. rewrite length_map. apply firstn_le_length.
  - apply head_keys_most_frequent.
  - apply groupby2_size_invariant.
  - intros y m c. rewrite groupby2_size_In, dropna2_In, in_map_iff. split.
    + intros [(r & Er & Hr) ->]. injection Er as Ey Em.
      unfold rows in Hr. apply filter_In in Hr. destruct Hr as [Hview Htop].
      apply isin_Some in Htop. destruct Htop as (m' & Em' & Hm').
      assert (m' = m) by congruence. subst m'.
      split; [exact Hm'|]. split; [|now apply Hcount].
      apply occurrences_pos. apply dropna2_In, in_map_iff.
      exists r. split; [congruence|]. unfold rows. apply filter_In.
      split; [exact Hview|].
      apply isin_Some. now exists m.
    + intros (Hm & Hc & ->). rewrite <- (Hcount y m Hm) in *.
      split; [|reflexivity].
      apply occurrences_pos in Hc. apply dropna2_In, in_map_iff in Hc.
      exact Hc.
  - rewrite groupby2_size_total. apply dropna2_present.
    intros r Hr. unfold rows in Hr. apply filter_In in Hr.
    destruct Hr as [Hr Htop]. split.
    + apply filtered_df_In in Hr. destruct Hr as [_ ((y & Ey & _) & _)].
      congruence.
    + apply isin_Some in Htop. destruct Htop as (m & Em & _). congruence.
Qed.

(** X17.  "Top 15 Models" has at most fifteen bars, in descending order of
    count, no two for the same make and model; each bar is labelled with
    its make, a space and its model, and counts the rows of the view with
    that make and model, of which there is at least one. *)
Theorem top_models (filtered : DataFrame) :
  length (model_df filtered) <= 15 /\
  StronglySorted (fun a b => bar_Count b <= bar_Count a) (model_df filtered) /\
  NoDup (map (fun bar => (bar_Make bar, bar_Model bar)) (model_df filtered)) /\
  (forall bar, In bar (model_df filtered) ->
      bar_Make_Model bar = (bar_Make bar ++ " " ++ bar_Model bar)%string /\
      bar_Count bar <> 0 /\
      bar_Count bar
      = length (filter (fun r => key_eqb (Some (bar_Make bar)) (Make r)
                                 && key_eqb (Some (bar_Model bar)) (Model r))
                  filtered)).
Proof.
  unfold model_df, model_counts, head.
  set (groups := groupby2_size (map (fun r => (Make r, Model r)) filtered)).
  pose proof (sort_values_perm groups) as Hperm.
  pose proof (sort_values_desc groups) as Hdesc.
  destruct (groupby2_size_invariant (map (fun r => (Make r, Model r)) filtered))
    as [Hasc _].
  fold groups in Hasc.
  split; [|split; [|split]].
  - rewrite length_map. apply firstn_le_length.
  - apply (sorted_map (R := @count_ge (string * string))); [auto|].
    apply (sorted_prefix _ (skipn 15 (sort_values groups))).
    now rewrite firstn_skipn.
  - rewrite map_map. simpl.
    assert (Hnd : NoDup (map fst (sort_values groups))).
    { apply (Permutation_NoDup (Permutation_map fst Hperm)).
      now apply keys_ascending_NoDup. }
    rewrite <- (firstn_skipn 15 (sort_values groups)), map_app in Hnd.
    apply NoDup_app_remove_r in Hnd.
    erewrite map_ext; [exact Hnd|]. now intros [[a b] c].
  - intros bar Hbar. apply in_map_iff in Hbar.
    destruct Hbar as ([[make model] c] & <- & Hin). simpl.
    split; [reflexivity|].
    apply (head_In 15) in Hin.
    apply (Permutation_in _ (Permutation_sym Hperm)) in Hin.
    unfold groups in Hin. apply groupby2_size_In in Hin.
    destruct Hin as [Hin ->]. split; [now apply occurrences_pos|].
    apply occurrences_dropna2; exact _.
Qed.

(** X18.  The violin plot of the range tab shows the range data of the
    ten most frequent makes of the whole view; when the view has at most
    ten makes it shows all the range data whose make is present. *)
Theorem range_by_make_covers (filtered : DataFrame) :
  length (top_makes_range filtered) <= 10 /\
  (forall a b, In a (top_makes_range filtered) ->
               ~ In b (top_makes_range filtered) ->
               occurrences (Some b) (map Make filtered)
               <= occurrences (Some a) (map Make filtered)) /\
  (forall r, In r (range_by_make filtered)
             <-> In r (range_data filtered) /\
                 exists m, Make r = Some m /\ In m (top_makes_range filtered)) /\
  (nunique (map Make filtered) <= 10 ->
   range_by_make filtered
   = filter (fun r => match Make r with Some _ => true | None => false end)
       (range_data filtered)).
Proof.
  unfold range_by_make.
  rewrite (boolean_index_filter Make
             (isin (map Some (top_makes_range filtered))) (range_data filtered)).
  split; [|split; [|split]].
  - unfold top_makes_range, head. rewrite length_map. apply firstn_le_length.
  - apply head_keys_most_frequent.
  - intros r. rewrite filter_In, isin_Some. tauto.
  - intros Hfew. apply filter_ext_in. intros r Hr.
    destruct (Make r) as [m|] eqn:Em.
    2:{ destruct (isin (map Some (top_makes_range filtered)) None) eqn:E;
          [|reflexivity].
        apply isin_Some in E. destruct E as (m & E & _). discriminate. }
    apply isin_Some. exists m. split; [reflexivity|].
    unfold top_makes_range, head.
    rewrite firstn_all2
      by (rewrite (@value_counts_length sorter sorter_ok string _ HashableOk_string);
          exact Hfew).
    apply in_map_iff. exists (m, occurrences (Some m) (map Make filtered)).
    split; [reflexivity|]. apply value_counts_In. split; [|reflexivity].
    rewrite <- Em. apply in_map.
    rewrite range_data_filter in Hr. now apply filter_In in Hr.
Qed.

End MoreCharts.

(** ** Instances of the further properties on the sample data *)

Lemma insights_name_most_frequent_witness :
  exists i,
    key_insights (filtered_df scenario scenario_controls) = Ok i /\
    exists make n pct q,
      Market_Leader i = (make, n, pct) /\
      In (Some make) (map Make (filtered_df scenario scenario_controls)) /\
      n = occurrences (Some make) (map Make (filtered_df scenario scenario_controls)) /\
      (forall k, occurrences (Some k)
                   (map Make (filtered_df scenario scenario_controls)) <= n) /\
      pct = Fin q /\ (0 < q)%Q /\ (q <= 100)%Q.
Proof.
  destruct (key_insights (filtered_df scenario scenario_controls)) as [i|e] eqn:E.
  - exists i. split; [reflexivity|].
    exact (proj1 (@insights_name_most_frequent SortValues_stable
                    SortValuesOk_stable _ i E)).
  - vm_compute in E. discriminate E.
Defined.

Lemma slices_match_metrics_witness :
  length (make_counts (filtered_df scenario scenario_controls))
  = Nat.min 15 (Unique_Makes (key_metrics (filtered_df scenario scenario_controls))).
Proof.
  exact (proj1 (@slices_match_metrics SortValues_stable SortValuesOk_stable
                  (filtered_df scenario scenario_controls))).
Defined.

Lemma charts_show_selected_only_witness :
  In ("NISSAN"%string, 1) (make_counts (filtered_df scenario scenario_controls)) /\
  In (Some "NISSAN"%string) (selected_makes scenario_controls).
Proof.
  assert (Hin : In ("NISSAN"%string, 1)
                  (make_counts (filtered_df scenario scenario_controls))).
  { right. left. reflexivity. }
  split; [exact Hin|].
  exact (proj1 (@charts_show_selected_only SortValues_stable SortValuesOk_stable
                  scenario scenario_controls) "NISSAN"%string 1 Hin).
Defined.

Lemma year_span_bounds_witness :
  exists span,
    quick_stats (filtered_df scenario scenario_controls)
    = Some (length (filtered_df scenario scenario_controls),
            nunique (map Make (filtered_df scenario scenario_controls)),
            Some span) /\
    (1 <= Z.of_nat (length (yearly_counts (filtered_df scenario scenario_controls)))
     <= span)%Z /\
    (span <= snd (year_range scenario_controls)
             - fst (year_range scenario_controls) + 1)%Z.
Proof.
  apply (year_span_bounds scenario scenario_controls).
  intros E. vm_compute in E. discriminate E.
Defined.

Lemma default_controls_start_witness :
  exists w,
    default_controls fleet = Done w /\
    (fst (year_range w) < snd (year_range w))%Z /\
    In (Some (fst (year_range w))) (map Model_Year fleet) /\
    In (Some (snd (year_range w))) (map Model_Year fleet).
Proof.
  destruct (default_controls fleet) as [w|e] eqn:E.
  - exists w. split; [reflexivity|].
    destruct (@default_controls_start SortValues_stable SortValuesOk_stable
                fleet w E) as (H1 & H2 & H3 & _).
    exact (conj H1 (conj H2 H3)).
  - vm_compute in E. discriminate E.
Defined.

Lemma default_states_first_in_order_witness :
  exists w,
    default_controls scenario = Done w /\
    length (selected_states w) <= 5 /\ NoDup (selected_states w).
Proof.
  destruct (default_controls scenario) as [w|e] eqn:E.
  - exists w. split; [reflexivity|].
    destruct (@default_states_first_in_order SortValues_stable scenario w E)
      as (H1 & H2 & _).
    exact (conj H1 H2).
  - vm_compute in E. discriminate E.
Defined.

Lemma default_controls_failures_witness :
  default_controls [] = Fails ValueError /\
  default_controls cafv_blank = Fails StreamlitInvalidMinMaxError /\
  default_controls state_blank = Fails TypeError.
Proof.
  split; [|split].
  - apply (proj1 (@default_controls_failures SortValues_stable [])).
    reflexivity.
  - apply (proj1 (proj2 (@default_controls_failures SortValues_stable cafv_blank))
             2021%Z).
    + simpl. now left.
    + simpl. intros y' [[= <-] | []]. reflexivity.
  - assert (H2020 : In (Some 2020%Z) (map Model_Year state_blank))
      by (simpl; now left).
    assert (H2021 : In (Some 2021%Z) (map Model_Year state_blank))
      by (simpl; right; now left).
    assert (Hne : 2020%Z <> 2021%Z) by discriminate.
    destruct (proj2 (proj2 (@default_controls_failures SortValues_stable state_blank))
                2020%Z 2021%Z H2020 H2021 Hne) as [Hstate _].
    apply Hstate. split; [simpl; right; now left | discriminate].
Defined.

Lemma top_makes_over_time_witness :
  length (top_makes (filtered_df fleet fleet_controls)) <= 5 /\
  keys_ascending (yearly_make_data (filtered_df fleet fleet_controls)).
Proof.
  destruct (@top_makes_over_time SortValues_stable SortValuesOk_stable
              fleet fleet_controls) as (H1 & _ & H2 & _).
  exact (conj H1 H2).
Defined.

Lemma top_models_witness :
  length (model_df fleet) <= 15 /\
  StronglySorted (fun a b => bar_Count b <= bar_Count a) (model_df fleet).
Proof.
  destruct (@top_models SortValues_stable SortValuesOk_stable fleet)
    as (H1 & H2 & _).
  exact (conj H1 H2).
Defined.

Lemma range_by_make_covers_witness :
  range_by_make fleet
  = filter (fun r => match Make r with Some _ => true | None => false end)
      (range_data fleet).
Proof.
  apply (@range_by_make_covers SortValues_stable SortValuesOk_stable fleet).
  vm_compute. lia.
Defined.
